(** * ae-score: a shallow embedding of [ae-score.py]

    The script scores images with a CLIP encoder followed by a small
    linear regressor.  This development embeds the parts of the script
    that carry logic of their own: the checkpoint cache ([ensure_model]),
    the predictor loader ([load_model]), file discovery ([get_files]),
    L2 normalisation ([normalized]), device resolution ([get_device]),
    the chunked scoring loop and the report / CSV tail of [main].

    Conventions.
    - Python [str] is [string]; the builtins used by the script
      ([lower], [endswith], [startswith], [in], [join], [os.path.join])
      are defined below and characterised by lemmas.
    - An exception is a value of [exn]; code that may raise returns
      [result].  Effects on the file system, the network and standard
      output are threaded through an explicit [world].
    - External collaborators (CLIP, torch, PIL, requests, platformdirs,
      pathlib's path normalisation, float printing) are Section
      variables: the theorems hold for every behaviour of them.
    - Paths are taken as they are written: a directory is known to the
      world under the spelling the script uses for it, without a
      trailing slash. *)

From Stdlib Require Import ZArith QArith Ascii String List Lia Bool.
From Stdlib Require Import Sorted Permutation.
From stdpp Require Import base option list strings gmap pretty.

Import ListNotations.
Set Warnings "-register-all".
Local Open Scope string_scope.
Local Open Scope list_scope.

(** ** Python string builtins *)

(** [c.lower()] on one character.  Strings are byte strings here and
    only the ASCII capitals change; the suffixes and names the script
    compares against are ASCII. *)
Definition lower_ascii (c : ascii) : ascii :=
  let n := nat_of_ascii c in
  if (Nat.leb 65 n && Nat.leb n 90)%bool then ascii_of_nat (n + 32) else c.

(** [s.lower()] *)
Fixpoint lower (s : string) : string :=
  match s with
  | EmptyString => EmptyString
  | String c s' => String (lower_ascii c) (lower s')
  end.

(** [s.startswith(p)] *)
Fixpoint startswith (s p : string) : bool :=
  match p, s with
  | EmptyString, _ => true
  | String _ _, EmptyString => false
  | String a p', String b s' => if Ascii.eqb a b then startswith s' p' else false
  end.

(** [s.endswith(suf)]: some tail of [s] is [suf]. *)
Fixpoint endswith (s suf : string) : bool :=
  if String.eqb s suf then true
  else match s with
       | EmptyString => false
       | String _ s' => endswith s' suf
       end.

(** [s.endswith((t1, ..., tn))]: the tuple form. *)
Definition endswith_any (s : string) (sufs : list string) : bool :=
  existsb (endswith s) sufs.

(** [sub in s] *)
Fixpoint contains (sub s : string) : bool :=
  if startswith s sub then true
  else match s with
       | EmptyString => false
       | String _ s' => contains sub s'
       end.

(** [sep.join(l)] *)
Fixpoint join (sep : string) (l : list string) : string :=
  match l with
  | [] => EmptyString
  | [x] => x
  | x :: l' => x +:+ sep +:+ join sep l'
  end.

(** [os.path.join(a, b)] (posixpath). *)
Definition os_path_join (a b : string) : string :=
  if startswith b "/" then b
  else if (String.eqb a "" || endswith a "/")%bool then a +:+ b
  else a +:+ "/" +:+ b.

(** [x in l] for a list (or the keys of a dict) of strings. *)
Definition mem (x : string) (l : list string) : bool :=
  existsb (String.eqb x) l.

(** ** Exceptions and results *)

Inductive exn : Type :=
| ValueError (msg : string)
| NameError (name : string)         (* UnboundLocalError included *)
| RuntimeError (msg : string)
| AttributeError (msg : string)
| KeyError (key : string)
| ZeroDivisionError
| OSError (path : string)          (* PIL cannot open / decode the file *)
| FileExistsError (path : string)
| FileNotFoundError (path : string)
| NotADirectoryError (path : string)
| IsADirectoryError (path : string)
| HTTPError (url : string).        (* requests.get failed *)

Inductive result (A : Type) : Type :=
| Ok (a : A)
| Raise (e : exn).
Arguments Ok {A} a.
Arguments Raise {A} e.

(** ** The world the script acts on *)

Record world : Type := mkWorld {
  fs_files : gmap string string;   (* regular files: path -> content *)
  fs_dirs : gset string;           (* directories *)
  requests : list string;          (* URLs fetched so far, oldest first *)
  stdout : list string             (* lines printed so far, oldest first *)
}.

(** A computation with effects on the world that may raise. *)
Definition IO (A : Type) : Type := world -> result A * world.

Definition ret {A} (a : A) : IO A := fun w => (Ok a, w).
Definition raise {A} (e : exn) : IO A := fun w => (Raise e, w).
Definition bind {A B} (m : IO A) (k : A -> IO B) : IO B :=
  fun w => match m w with
           | (Ok a, w') => k a w'
           | (Raise e, w') => (Raise e, w')
           end.

Notation "'do' x <- m ; k" := (bind m (fun x => k))
  (at level 10, x name, m at level 100, k at level 200).
Notation "'run' m ; k" := (bind m (fun _ => k))
  (at level 10, m at level 100, k at level 200).

(** The same for code that raises but has no effect on the world. *)
Definition rbind {A B} (m : result A) (k : A -> result B) : result B :=
  match m with
  | Ok a => k a
  | Raise e => Raise e
  end.

Notation "'try' x <- m ; k" := (rbind m (fun x => k))
  (at level 10, x name, m at level 100, k at level 200).

Definition lift {A} (m : result A) : IO A := fun w => (m, w).

Definition print (line : string) : IO unit :=
  fun w => (Ok tt, mkWorld (fs_files w) (fs_dirs w) (requests w) (stdout w ++ [line])).

(** [Path(p).is_file()] and [Path(p).is_dir()] *)
Definition is_file (p : string) (w : world) : bool :=
  bool_decide (is_Some (fs_files w !! p)).
Definition is_dir (p : string) (w : world) : bool :=
  bool_decide (p ∈ fs_dirs w).

(** [Path(p).exists()] *)
Definition path_exists (p : string) (w : world) : bool :=
  bool_decide (is_Some (fs_files w !! p)) || bool_decide (p ∈ fs_dirs w).

(** The proper ancestors of a path: every non-empty prefix that ends
    just before a [/]. *)
Fixpoint path_parents (acc p : string) : list string :=
  match p with
  | EmptyString => []
  | String c p' =>
      (if (Ascii.eqb c "/" && negb (String.eqb acc ""))%bool then [acc] else [])
      ++ path_parents (acc +:+ String c EmptyString) p'
  end.

(** [Path(p).mkdir(parents=True, exist_ok=True)]: nothing to do when
    [p] is a directory; [FileExistsError] when [p] is a regular file
    ([exist_ok] covers directories only) and [NotADirectoryError] when
    an ancestor is one, with nothing made; otherwise [p] and its missing
    ancestors are made. *)
Definition mkdir_parents (p : string) : IO unit :=
  fun w =>
    if is_dir p w then (Ok tt, w)
    else if is_file p w then (Raise (FileExistsError p), w)
    else if existsb (fun a => is_file a w) (path_parents "" p)
    then (Raise (NotADirectoryError p), w)
    else (Ok tt, mkWorld (fs_files w)
                         (fs_dirs w ∪ {[p]} ∪ list_to_set (path_parents "" p))
                         (requests w) (stdout w)).

(** The directory a path lies in, [None] for a path without a
    directory part (it lies in the current directory, or in the root). *)
Definition parent_dir (p : string) : option string :=
  last (path_parents "" p).

(** [open(p, "w")] succeeds: [p] is no directory and the directory it
    lies in is there. *)
Definition writable (p : string) (w : world) : bool :=
  negb (String.eqb p "" || is_dir p w || endswith p "/")
  && match parent_dir p with
     | Some d => is_dir d w
     | None => true
     end.

(** [with open(p, "w") as f: f.write(content)]; [open] raises, and
    nothing is written, on a directory ([IsADirectoryError]), below a
    regular file ([NotADirectoryError]) and in a directory that is
    missing ([FileNotFoundError]). *)
Definition write_file (p content : string) : IO unit :=
  fun w =>
    if writable p w
    then (Ok tt, mkWorld (<[p := content]> (fs_files w)) (fs_dirs w)
                         (requests w) (stdout w))
    else if (is_dir p w || endswith p "/")%bool then (Raise (IsADirectoryError p), w)
    else if existsb (fun a => is_file a w) (path_parents "" p)
    then (Raise (NotADirectoryError p), w)
    else (Raise (FileNotFoundError p), w).

(** ** Module constants *)

Definition APP_NAME : string := "ae-score".
Definition APP_AUTHOR : string := "rockerBOO".

(** The dict [model_to_host], in insertion order. *)
Definition model_to_host : list (string * string) :=
  [ ("chadscorer", "https://github.com/grexzen/SD-Chad/raw/main/chadscorer.pth");
    ("sac+logos+ava1-l14-linearMSE",
     "https://github.com/christophschuhmann/improved-aesthetic-predictor/blob/main/sac+logos+ava1-l14-linearMSE.pth?raw=true") ].

Definition clip_models : list string :=
  ["ViT-B/32"; "ViT-B/32"; "ViT-L/14"; "ViT-L/14@336px"].

Definition MODEL : string := "sac+logos+ava1-l14-linearMSE".
Definition CLIP_MODEL : string := "ViT-L/14".

(** [model_to_host.keys()] *)
Definition model_keys : list string := map fst model_to_host.

(** [model_to_host[model]] *)
Fixpoint dict_get (d : list (string * string)) (k : string) : option string :=
  match d with
  | [] => None
  | (k', v) :: d' => if String.eqb k k' then Some v else dict_get d' k
  end.

(** ** Data of a run *)

Inductive dtype : Type := float32 | float16 | bfloat16.

Definition dtype_eqb (a b : dtype) : bool :=
  match a, b with
  | float32, float32 | float16, float16 | bfloat16, bfloat16 => true
  | _, _ => false
  end.

(** The namespace [argparse] builds ([Args] plus the three options the
    dataclass leaves out); [device] is [None] unless [--device] is given. *)
Record Args : Type := mkArgs {
  image_file_or_dir : string;
  model : string;
  clip_model : string;
  device : option string;
  batch_size : Z;
  no_progress : bool;
  store_full_path : bool;
  save_csv : bool;
  csv_file : option string;
  precision : string
}.

(** What the operating system shows at a path: a directory with its
    listing, in [os.listdir] order, or anything else ([is_dir()] false). *)
Inductive entry : Type :=
| File
| Dir (file_list : list (string * entry)).

(** The layers of [nn.Sequential]. *)
Inductive layer : Type :=
| Linear (in_features out_features : nat)
| Dropout (p : Q).

(** A checkpoint as [torch.load] returns it: parameter name -> shape. *)
Definition state_dict : Type := list (string * list nat).

Record AestheticPredictor : Type := mkPredictor {
  input_size : nat;
  layers : list layer;
  loaded : option state_dict;
  on_device : option string;
  training : bool
}.

(** [AestheticPredictor.__init__] *)
Definition AestheticPredictor_init (input_size : nat) : AestheticPredictor :=
  mkPredictor input_size
    [ Linear input_size 1024; Dropout 0.2;
      Linear 1024 128; Dropout 0.2;
      Linear 128 64; Dropout 0.1;
      Linear 64 16;
      Linear 16 1 ]
    None None true.

(** The parameters [nn.Sequential] registers for its layers, from index [i]. *)
Fixpoint expected_state (i : nat) (ls : list layer) : state_dict :=
  match ls with
  | [] => []
  | Linear n m :: ls' =>
      ("layers." +:+ pretty i +:+ ".weight", [m; n])
        :: ("layers." +:+ pretty i +:+ ".bias", [m])
        :: expected_state (S i) ls'
  | Dropout _ :: ls' => expected_state (S i) ls'
  end.

Fixpoint state_get (d : state_dict) (k : string) : option (list nat) :=
  match d with
  | [] => None
  | (k', v) :: d' => if String.eqb k k' then Some v else state_get d' k
  end.

Definition shape_eqb (a b : list nat) : bool :=
  bool_decide (a = b).

(** [load_state_dict] with [strict=True]: no missing key, no unexpected
    key, no size mismatch. *)
Definition state_matches (want got : state_dict) : bool :=
  forallb (fun kv => match state_get got (fst kv) with
                     | Some sh => shape_eqb sh (snd kv)
                     | None => false
                     end) want
  && forallb (fun kv => mem (fst kv) (map fst want)) got.

Definition load_state_dict (p : AestheticPredictor) (st : state_dict)
  : result AestheticPredictor :=
  if state_matches (expected_state 0 (layers p)) st
  then Ok (mkPredictor (input_size p) (layers p) (Some st) (on_device p) (training p))
  else Raise (RuntimeError "Error(s) in loading state_dict for AestheticPredictor").

(** The dtype of the parameters: [nn.Linear] creates them as
    [torch.float32], [load_state_dict] copies values into them and
    [to(device)] moves them; nothing in the script casts the module. *)
Definition param_dtype (p : AestheticPredictor) : dtype := float32.

(** [predictor.to(device)] and [predictor.eval()] *)
Definition to_device (p : AestheticPredictor) (d : string) : AestheticPredictor :=
  mkPredictor (input_size p) (layers p) (loaded p) (Some d) (training p).
Definition eval_mode (p : AestheticPredictor) : AestheticPredictor :=
  mkPredictor (input_size p) (layers p) (loaded p) (on_device p) false.

(** The progress bar, as far as the script drives it. *)
Record tqdm : Type := mkTqdm {
  total : Z;
  n_updates : nat;
  postfix : option nat
}.

(** [range(start, stop, step)] *)
Definition py_range (start stop step : Z) : result (list Z) :=
  if (step =? 0)%Z then Raise (ValueError "range() arg 3 must not be zero")
  else
    let count :=
      if (0 <? step)%Z then ((stop - start + step - 1) / step)%Z
      else ((start - stop - step - 1) / (- step))%Z in
    Ok (map (fun k => (start + Z.of_nat k * step)%Z) (seq 0 (Z.to_nat count))).

(** [lst[i:j]] for the bounds the script uses ([0 <= i <= j]). *)
Definition py_slice {A} (lst : list A) (i j : Z) : list A :=
  firstn (Z.to_nat (j - i)) (skipn (Z.to_nat i) lst).

(** The generator [chunks] of [main]. *)
Definition chunks {A} (lst : list A) (n : Z) : result (list (list A)) :=
  try idx <- py_range 0 (Z.of_nat (length lst)) n;
  Ok (map (fun i => py_slice lst i (i + n)) idx).

(** ** [int / int] and [math.ceil]

    The quotient of two ints is a float: the double nearest to the
    exact quotient, ties going to the even mantissa.  A finite double
    is [mantissa * 2 ^ exponent] with a mantissa of at most 53 bits and
    an exponent of at least -1074. *)
Record double : Type := mkDouble { mantissa : Z; exponent : Z }.

(** [n / d] to the nearest integer, ties to even, for [0 < d]. *)
Definition round_half_even (n d : Z) : Z :=
  let q := (n / d)%Z in
  let r := (n mod d)%Z in
  if (2 * r <? d)%Z then q
  else if (d <? 2 * r)%Z then (q + 1)%Z
  else if Z.even q then q else (q + 1)%Z.

(** [2 ^ e], and 1 for a negative [e]. *)
Definition pow2 (e : Z) : Z := (2 ^ Z.max 0 e)%Z.

(** [floor(log2(n / d))] for positive [n] and [d]. *)
Definition floor_log2 (n d : Z) : Z :=
  let k := (Z.log2 n - Z.log2 d)%Z in
  if (n * pow2 (- k) <? d * pow2 k)%Z then (k - 1)%Z else k.

(** The double nearest to [n / d] for positive [n] and [d]: the
    quotient is rounded at bit 52 below its leading bit, or at bit
    -1074 when that is higher (gradual underflow, down to zero). *)
Definition nearest_double (n d : Z) : double :=
  let e := Z.max (floor_log2 n d - 52) (-1074) in
  mkDouble (round_half_even (n * pow2 (- e)) (d * pow2 e)) e.

(** [a / b] on ints.  The dividend of the script is the length of a
    list, below [2 ^ 63], so the quotient is within the range of the
    doubles and the [OverflowError] of larger quotients is left out. *)
Definition int_true_div (a b : Z) : result double :=
  if (b =? 0)%Z then Raise ZeroDivisionError
  else if (a =? 0)%Z then Ok (mkDouble 0 0)
  else
    let x := nearest_double (Z.abs a) (Z.abs b) in
    Ok (mkDouble (Z.sgn a * Z.sgn b * mantissa x) (exponent x)).

(** [math.ceil(x)], an int again. *)
Definition ceil (x : double) : Z :=
  (- Z.shiftl (- mantissa x) (exponent x))%Z.

(** ** Writing CSV (the [excel] dialect of the [csv] module) *)

Definition dquote : ascii := "034"%char.
Definition crlf : string := String "013" (String "010" EmptyString).

Fixpoint string_existsb (f : ascii -> bool) (s : string) : bool :=
  match s with
  | EmptyString => false
  | String c s' => f c || string_existsb f s'
  end.

Definition csv_special (c : ascii) : bool :=
  Ascii.eqb c "," || Ascii.eqb c dquote || Ascii.eqb c "013" || Ascii.eqb c "010".

Fixpoint csv_escape (s : string) : string :=
  match s with
  | EmptyString => EmptyString
  | String c s' =>
      if Ascii.eqb c dquote then String dquote (String dquote (csv_escape s'))
      else String c (csv_escape s')
  end.

(** [QUOTE_MINIMAL] with [doublequote]. *)
Definition csv_field (s : string) : string :=
  if string_existsb csv_special s
  then String dquote (csv_escape s +:+ String dquote EmptyString)
  else s.

(** One [writer.writerow]. *)
Definition csv_row (fields : list string) : string :=
  join "," (map csv_field fields) +:+ crlf.

Definition csv_text (rows : list (list string)) : string :=
  String.concat "" (map csv_row rows).

Definition fieldnames : list string := ["file"; "score"].

(** The number of occurrences of a character; the lines of a text are
    counted by its line feeds. *)
Fixpoint count_char (c : ascii) (s : string) : nat :=
  match s with
  | EmptyString => 0
  | String x s' => (if Ascii.eqb x c then 1 else 0) + count_char c s'
  end.

Definition line_feeds (s : string) : nat := count_char "010" s.

(** The image extensions [get_files] accepts. *)
Definition image_suffixes : list string :=
  [".jpg"; ".jpeg"; ".png"; ".bmp"; ".webp"; ".avif"].

(** ** More of the file system *)

(** [s] without its prefix [pre]. *)
Fixpoint strip_prefix (pre s : string) : option string :=
  match pre with
  | EmptyString => Some s
  | String a pre' =>
      match s with
      | EmptyString => None
      | String b s' => if Ascii.eqb a b then strip_prefix pre' s' else None
      end
  end.

(** The name under which the path [p] is listed in the directory [d]
    (a path without a trailing slash): [p] is [d/n] for a name [n]. *)
Definition child_name (d p : string) : option string :=
  match strip_prefix (d +:+ "/") p with
  | Some n =>
      if (String.eqb n "" || string_existsb (Ascii.eqb "/") n)%bool then None
      else Some n
  | None => None
  end.

(** [os.listdir(d)]: the names in [d], in an order of the system's
    choosing; it raises when [d] is not a directory. *)
Definition os_listdir (d : string) : IO (list string) :=
  fun w =>
    if bool_decide (d ∈ fs_dirs w)
    then (Ok (omap (child_name d) (elements (dom (fs_files w) ∪ fs_dirs w))), w)
    else (Raise (OSError d), w).

(** [os.remove(p)]: it removes a regular file and raises on anything else. *)
Definition os_remove (p : string) : IO unit :=
  fun w =>
    match fs_files w !! p with
    | Some _ => (Ok tt, mkWorld (delete p (fs_files w)) (fs_dirs w)
                                (requests w) (stdout w))
    | None => (Raise (OSError p), w)
    end.

(** [for x in l: body(x)] *)
Fixpoint for_each_io {A} (body : A -> IO unit) (l : list A) : IO unit :=
  match l with
  | [] => ret tt
  | x :: l' => run body x; for_each_io body l'
  end.

(** ** The metadata dump ([read-metadata.py]) *)

Module ReadMetadata.

(** What [argparse] stores for an option: [None], or a value. *)
Inductive pyobj : Type :=
| PyNone
| PyBool (b : bool).

(** [x is not None] *)
Definition is_not_None (x : pyobj) : bool :=
  match x with
  | PyNone => false
  | PyBool _ => true
  end.

(** [action="store_true"]: the flag given or not. *)
Definition store_true (given : bool) : pyobj := PyBool given.

Record Args : Type := mkArgs {
  path : string;
  keys : pyobj
}.

(** [argparser.parse_args()] for a command line with the path and
    with or without [--keys]. *)
Definition parse_args (path : string) (keys_given : bool) : Args :=
  mkArgs path (store_true keys_given).

(** An open safetensors file: its metadata dict, if any, and the names
    of its tensors. *)
Record safetensors : Type := mkFile {
  metadata : option (list (string * string));
  file_keys : list string
}.

(** [main(args)]; [safe_open] is [None] when the file cannot be opened
    and [json_dumps] is [json.dumps(_, indent=4)]. *)
Definition main (safe_open : string -> option safetensors)
    (json_dumps : option (list (string * string)) -> string)
    (args : Args) : IO unit :=
  match safe_open (path args) with
  | None => raise (OSError (path args))
  | Some file =>
      let parsed := metadata file in
      run print (json_dumps parsed);
      if is_not_None (keys args)
      then for_each_io print (file_keys file)
      else ret tt
  end.

End ReadMetadata.

(** ** A sample environment

    One concrete choice for every external collaborator, used to run
    the script on explicit inputs: exact rational arithmetic for the
    floats, a Linux cache directory, a server that always answers. *)

Module Sample.

Definition lt (a b : Q) : bool := negb (Qle_bool b a).
Definition of_nat (n : nat) : Q := inject_Z (Z.of_nat n).
Definition repr (q : Q) : string :=
  pretty (Qnum (Qred q)) +:+ "/" +:+ pretty (Zpos (Qden (Qred q))).

(** Square root by the integer square roots of numerator and
    denominator: exact on the square of a rational in lowest terms. *)
Definition sqrt (q : Q) : Q := Z.sqrt (Qnum q) # Pos.sqrt (Qden q).
Definition norm (row : list Q) : Q :=
  sqrt (fold_right (fun x acc => x * x + acc)%Q 0%Q row).

Definition cache_dir (appname appauthor : string) : string :=
  "/home/user/.cache/" +:+ appname.
Definition requests_get (url : string) : option string :=
  Some ("content of " +:+ url).

(** Every checkpoint holds the parameters of the 768-wide network. *)
Definition checkpoint : state_dict :=
  expected_state 0 (layers (AestheticPredictor_init 768)).
Definition torch_load (bytes : string) : option state_dict := Some checkpoint.

Definition torch_device (s : string) : result string :=
  if String.eqb s "" then Raise (RuntimeError "Device string must not be empty")
  else Ok s.

Definition fspath (s : string) : string := s.

(** An image is known by the name of its file; every file decodes. *)
Definition open_image (f : string) : option string := Some f.
Definition clip_load (name device : string) : option unit := Some tt.
(** Rows of 768 entries, all zero but the first two. *)
Definition encode_image (images : list string) : list (list Q) :=
  map (fun f => of_nat (String.length f) :: 1%Q :: repeat 0%Q 766) images.
Definition forward (p : AestheticPredictor) (dt : dtype) (rows : list (list Q))
  : list Q :=
  map (fun row => nth 1 row 0%Q) rows.

Definition args : Args :=
  mkArgs "photos" MODEL CLIP_MODEL None 5 false false false None "float".

(** A second arithmetic, with the special values of IEEE 754: finite
    rationals, the two infinities and NaN.  Division by zero gives an
    infinity, or NaN for [0 / 0]; NaN is equal to nothing. *)
Inductive xq : Type :=
| Fin (q : Q)
| Inf (negative : bool)
| NaN.

Definition xdiv (x y : xq) : xq :=
  match x, y with
  | NaN, _ | _, NaN => NaN
  | Inf _, Inf _ => NaN
  | Inf s, Fin b => Inf (xorb s (lt b 0))
  | Fin _, Inf _ => Fin 0
  | Fin a, Fin b =>
      if Qeq_bool b 0 then (if Qeq_bool a 0 then NaN else Inf (lt a 0))
      else Fin (a / b)
  end.

Definition xeqb (x y : xq) : bool :=
  match x, y with
  | Fin a, Fin b => Qeq_bool a b
  | Inf s, Inf t => Bool.eqb s t
  | _, _ => false
  end.

Definition xfinite (x : xq) : bool :=
  match x with
  | Fin _ => true
  | _ => false
  end.

Definition xsquare (x : xq) : xq :=
  match x with
  | Fin a => Fin (a * a)
  | Inf _ => Inf false
  | NaN => NaN
  end.

Definition xadd (x y : xq) : xq :=
  match x, y with
  | NaN, _ | _, NaN => NaN
  | Inf s, Inf t => if Bool.eqb s t then Inf s else NaN
  | Inf s, Fin _ | Fin _, Inf s => Inf s
  | Fin a, Fin b => Fin (a + b)
  end.

Definition xsqrt (x : xq) : xq :=
  match x with
  | Fin a => if lt a 0 then NaN else Fin (sqrt a)
  | Inf false => Inf false
  | _ => NaN
  end.

Definition xnorm (row : list xq) : xq :=
  xsqrt (fold_right (fun x acc => xadd (xsquare x) acc) (Fin 0) row).

Definition empty_world : world := mkWorld ∅ ∅ [] [].

(** The cache directory with its ancestors, and a world whose cache
    holds one checkpoint. *)
Definition dirs : gset string :=
  list_to_set ["/home"; "/home/user"; "/home/user/.cache"; "/home/user/.cache/ae-score"].
Definition cached (name bytes : string) : world :=
  mkWorld {[ "/home/user/.cache/ae-score/" +:+ name := bytes ]} dirs [] [].

End Sample.

(** ** The script *)

Section AeScore.

(** *** External collaborators *)

(** Floating-point values (Python floats, entries of numpy arrays,
    one-element tensors) and the operations the script applies to them. *)
Variable F : Type.
Variables f0 f1 : F.
Variables fadd fdiv : F -> F -> F.
Variables feqb flt : F -> F -> bool.          (* [==] and [<] *)
Variable f_of_nat : nat -> F.                 (* the int in [x / len(l)] *)
Variable repr : F -> string.                  (* [str] of a float *)
Variable is_finite : F -> bool.               (* neither NaN nor an infinity *)
Variable linalg_norm : list F -> F.           (* [np.linalg.norm(row, 2)] *)

(** [platformdirs.user_cache_dir] *)
Variable user_cache_dir : string -> string -> string.
(** The body [requests.get(url)] returns, or [None] when it raises. *)
Variable requests_get : string -> option string.
(** [torch.load] on the bytes of a file, [None] when it raises. *)
Variable torch_load : string -> option state_dict.
(** [torch.device(s)] *)
Variable torch_device : string -> result string.
Variable cuda_is_available : bool.
(** [str(Path(s))]: pathlib's normal form of a path. *)
Variable fspath : string -> string.
(** A preprocessed image; [Image.open] followed by the CLIP transform,
    [None] when the file cannot be decoded. *)
Variable image : Type.
Variable open_image : string -> option image.
(** [clip.load]: [None] when it raises. *)
Variable clip_load : string -> string -> option unit.
(** [clip_model.encode_image] on the stacked batch: one row per image. *)
Variable encode_image : list image -> list (list F).
(** The value of the forward pass on a batch of rows the layers accept. *)
Variable forward : AestheticPredictor -> dtype -> list (list F) -> list F.
(** [round(time.time())] at the moment [save_to_csv] runs. *)
Variable now : Z.

(** A score record, the dict [{"file": ..., "score": ...}]. *)
Record ScoreRecord : Type := mkScore { file : string; score : F }.

(** *** Checkpoint cache *)

Definition http_get (url : string) : IO string :=
  fun w =>
    let w' := mkWorld (fs_files w) (fs_dirs w) (requests w ++ [url]) (stdout w) in
    match requests_get url with
    | Some r => (Ok r, w')
    | None => (Raise (HTTPError url), w')
    end.

Definition invalid_model_msg (model : string) : string :=
  "invalid model: " +:+ model +:+ ". try one of these: " +:+ join ", " model_keys.

Definition ensure_model (model : string) : IO unit :=
  let cache_dir := user_cache_dir APP_NAME APP_AUTHOR in
  run mkdir_parents cache_dir;
  let file := model +:+ ".pth" in
  let full_file := os_path_join cache_dir file in
  fun w =>
    if negb (path_exists full_file w) then
      if negb (mem model model_keys) then
        raise (ValueError (invalid_model_msg model)) w
      else
        match dict_get model_to_host model with
        | None => raise (KeyError model) w
        | Some url =>
            (run print ("downloading " +:+ url);
             do r <- http_get url;
             run write_file full_file r;
             print ("saved to " +:+ full_file)) w
        end
    else ret tt w.

(** *** Predictor loader *)

Definition read_checkpoint (path : string) : IO state_dict :=
  fun w => match fs_files w !! path with
           | None => (Raise (OSError path), w)
           | Some bytes => match torch_load bytes with
                           | None => (Raise (RuntimeError "torch.load"), w)
                           | Some st => (Ok st, w)
                           end
           end.

Definition load_model (model : string) (clip_model : string) (device : string)
  : IO AestheticPredictor :=
  run ensure_model model;
  let cache_dir := user_cache_dir APP_NAME APP_AUTHOR in
  do pt_state <- read_checkpoint (os_path_join cache_dir (model +:+ ".pth"));
  let predictor :=
    if contains "ViT-L" clip_model then AestheticPredictor_init 768
    else if contains "ViT-B" clip_model then AestheticPredictor_init 512
    else AestheticPredictor_init 768 in
  do predictor <- lift (load_state_dict predictor pt_state);
  let predictor := to_device predictor device in
  let predictor := eval_mode predictor in
  ret predictor.

(** *** Normalisation *)

(** [normalized(a)] on a batch [a] of rows (the encoder output). *)
Definition normalized (a : list (list F)) : list (list F) :=
  let l2 := map linalg_norm a in
  let l2 := map (fun x => if feqb x f0 then f1 else x) l2 in
  zip_with (fun row d => map (fun x => fdiv x d) row) a l2.

Definition get_image_features (images : list image) : list (list F) :=
  normalized (encode_image images).

Definition prepare_dtype (args : Args) : dtype * option dtype :=
  let weight_dtype :=
    if String.eqb (precision args) "fp16" then float16
    else if String.eqb (precision args) "bf16" then bfloat16
    else float32 in
  (weight_dtype, None).

(** [predictor(x)], that is [forward(x)]: the first linear layer
    raises on a batch whose dtype is not that of its weights, and on
    rows that do not have [input_size] entries. *)
Definition predictor_call (predictor : AestheticPredictor) (dt : dtype)
    (x : list (list F)) : result (list F) :=
  if (dtype_eqb dt (param_dtype predictor)
      && forallb (fun row => Nat.eqb (length row) (input_size predictor)) x)%bool
  then Ok (forward predictor dt x)
  else Raise (RuntimeError "linear: dtype or shape mismatch").

Definition get_aesthetic_predictor_scores
    (images : list image) (predictor : AestheticPredictor) (dt : dtype)
  : result (list F) :=
  let image_features_list := get_image_features images in
  predictor_call predictor dt image_features_list.

(** *** Device resolution *)

Definition get_device (args : Args) : result string :=
  if bool_decide (device args = Some "") then torch_device ""
  else torch_device (if cuda_is_available then "cuda" else "cpu").

(** *** File discovery *)

(** [get_files(file_or_dir)]; [node] is what the path denotes and
    [args] is the module-level namespace the last branch reads. *)
Fixpoint get_files (args : Args) (file_or_dir : string) (node : entry)
  {struct node} : list string :=
  let input_images := fspath file_or_dir in
  match node with
  | Dir file_list =>
      (fix each (l : list (string * entry)) : list string :=
         match l with
         | [] => []
         | (file, child) :: l' =>
             let full_file := os_path_join input_images file in
             match child with
             | Dir _ => get_files args full_file child
             | File =>
                 if endswith_any (lower full_file) image_suffixes
                 then [full_file] else []
             end ++ each l'
         end) file_list
  | File =>
      if endswith_any (lower (image_file_or_dir args)) image_suffixes
      then [image_file_or_dir args] else []
  end.

(** *** The scoring loop of [main] *)

(** The local variables of [main] the loop reads and writes; [None]
    is a name that is not bound yet. *)
Record locals : Type := mkLocals {
  file_var : option string;
  scores : list ScoreRecord;
  progress_bar : option tqdm
}.

(** [for file in files_s: images.append(...)] *)
Fixpoint decode_loop (file_var : option string) (images : list image)
    (files_s : list string) : result (option string * list image) :=
  match files_s with
  | [] => Ok (file_var, images)
  | file :: rest =>
      match open_image file with
      | None => Raise (OSError file)
      | Some img => decode_loop (Some file) (images ++ [img]) rest
      end
  end.

(** [for score in ae_scores: scores.append({"file": file, "score": score})] *)
Fixpoint append_loop (file_var : option string) (scores : list ScoreRecord)
    (ae_scores : list F) : result (list ScoreRecord) :=
  match ae_scores with
  | [] => Ok scores
  | score :: rest =>
      match file_var with
      | None => Raise (NameError "file")
      | Some file => append_loop file_var (scores ++ [mkScore file score]) rest
      end
  end.

(** One iteration of [for files_s in chunks(...)]. *)
Definition loop_body (args : Args) (predictor : AestheticPredictor) (wdtype : dtype)
    (st : locals) (files_s : list string) : result locals :=
  try fi <- decode_loop (file_var st) [] files_s;
  try ae_scores <- get_aesthetic_predictor_scores (snd fi) predictor wdtype;
  try scores <- append_loop (fst fi) (scores st) ae_scores;
  match progress_bar st with
  | None => Raise (NameError "progress_bar")
  | Some bar =>
      let bar := mkTqdm (total bar) (n_updates bar) (Some (length scores)) in
      let bar := if negb (no_progress args)
                 then mkTqdm (total bar) (S (n_updates bar)) (postfix bar)
                 else bar in
      Ok (mkLocals (fst fi) scores (Some bar))
  end.

Fixpoint for_each {S A} (body : S -> A -> result S) (st : S) (l : list A) : result S :=
  match l with
  | [] => Ok st
  | x :: l' => try st' <- body st x; for_each body st' l'
  end.

(** Lines 231-264 of [main]: from the discovered files to the records. *)
Definition scoring_loop (args : Args) (predictor : AestheticPredictor)
    (wdtype : dtype) (files : list string) : result locals :=
  try bar <- (if negb (no_progress args)
              then try q <- int_true_div (Z.of_nat (length files)) (batch_size args);
                   Ok (Some (mkTqdm (ceil q) 0 None))
              else Ok None);
  try cs <- chunks files (batch_size args);
  for_each (loop_body args predictor wdtype) (mkLocals None [] bar) cs.

(** *** Aggregation and report *)

(** [sorted(l, key=..., reverse=True)]: the stable descending sort,
    computed by insertion; only [<] on keys is used, as in Python. *)
Fixpoint insert_desc {A} (key : A -> F) (x : A) (l : list A) : list A :=
  match l with
  | [] => [x]
  | y :: l' => if flt (key x) (key y) then y :: insert_desc key x l'
               else x :: y :: l'
  end.

Fixpoint sorted_desc {A} (key : A -> F) (l : list A) : list A :=
  match l with
  | [] => []
  | x :: l' => insert_desc key x (sorted_desc key l')
  end.

(** The rows [save_to_csv] hands to the writer, after the header. *)
Definition csv_record (full_path : string) (r : ScoreRecord) : list string :=
  [os_path_join full_path (file r); repr (score r)].

Definition save_to_csv (scores : list ScoreRecord) (full_path : string)
    (csv_file : option string) : IO unit :=
  let id := pretty now in
  let csv_file := match csv_file with
                  | None => "scores-" +:+ id +:+ ".csv"
                  | Some f => f
                  end in
  run write_file csv_file (csv_text (fieldnames :: map (csv_record full_path) scores));
  print ("Saved CSV to " +:+ csv_file).

Fixpoint print_scores (l : list ScoreRecord) : IO unit :=
  match l with
  | [] => ret tt
  | r :: l' => run print (file r +:+ " " +:+ repr (score r)); print_scores l'
  end.

(** Lines 270-287 of [main]. *)
Definition report (args : Args) (scores : list ScoreRecord) : IO unit :=
  let sorted_scores := sorted_desc score scores in
  run (if (length sorted_scores <? 300)%nat then print_scores sorted_scores else ret tt);
  let acc_scores := fold_left (fun acc r => fadd acc (score r)) sorted_scores f0 in
  if (0 <? length sorted_scores)%nat then
    let full_path := if store_full_path args then image_file_or_dir args else "" in
    run (if save_csv args
         then save_to_csv scores full_path (csv_file args)
         else ret tt);
    print ("average score: "
           +:+ repr (fdiv acc_scores (f_of_nat (length sorted_scores))))
  else print "no scores. Did you put the correct directory/image in?".

(** [main(args)], with [tree] what the file system shows at
    [args.image_file_or_dir]. *)
Definition main (args : Args) (tree : entry) : IO unit :=
  do device <- lift (get_device args);
  run print ("Loading " +:+ model args);
  do predictor <- load_model (model args) (clip_model args) device;
  run print ("Loading CLIP " +:+ clip_model args);
  run lift (match clip_load (clip_model args) device with
            | Some _ => Ok tt
            | None => Raise (RuntimeError "clip.load")
            end);
  let wdtype := fst (prepare_dtype args) in
  let files := get_files args (image_file_or_dir args) tree in
  run print ("Files to score: " +:+ pretty (length files));
  do st <- lift (scoring_loop args predictor wdtype files);
  report args (scores st).


(** *** Cache clean-up *)

Definition clear_cache : IO unit :=
  let cache_dir := user_cache_dir APP_NAME APP_AUTHOR in
  do l <- os_listdir cache_dir;
  for_each_io (fun f => os_remove (os_path_join cache_dir f)) l.

(** *** Vocabulary of the statements *)

(** [sub] occurs in [s]. *)
Definition occurs_in (sub s : string) : Prop :=
  exists pre post, s = pre +:+ sub +:+ post.

(** No element is less than a later one. *)
Definition descending {A : Type} (key : A -> F) (l : list A) : Prop :=
  StronglySorted (fun x y => flt (key x) (key y) = false) l.

(** The line printed for one record. *)
Definition score_line (r : ScoreRecord) : string :=
  file r +:+ " " +:+ repr (score r).

(** The accumulator [acc_scores] after the loop over [l]. *)
Definition total_score (l : list ScoreRecord) : F :=
  fold_left (fun acc r => fadd acc (score r)) l f0.

(** The name [save_to_csv] gives the file. *)
Definition csv_name (args : Args) : string :=
  match csv_file args with
  | None => "scores-" +:+ pretty now +:+ ".csv"
  | Some f => f
  end.

(** The prefix [main] passes to [save_to_csv]. *)
Definition csv_prefix (args : Args) : string :=
  if store_full_path args then image_file_or_dir args else "".

(** The records one chunk contributes: every score of the chunk under
    the name of the chunk's last file. *)
Definition chunk_records (predictor : AestheticPredictor) (wdtype : dtype)
    (files_s : list string) : list ScoreRecord :=
  map (mkScore (List.last files_s ""))
      (forward predictor wdtype (get_image_features (omap open_image files_s))).

(** The encoder and the predictor fit: every row the encoder returns
    has as many entries as the predictor takes. *)
Definition encoder_fits (predictor : AestheticPredictor) : Prop :=
  forall images,
    Forall (fun row => length row = input_size predictor) (encode_image images).

(** The cache directory is there, or can be made: no regular file sits
    at its path or at the path of one of its ancestors. *)
Definition can_mkdir (p : string) (w : world) : bool :=
  is_dir p w
  || (negb (is_file p w) && forallb (fun a => negb (is_file a w)) (path_parents "" p)).

(** The test both branches of [get_files] apply to a path. *)
Definition is_image_path (p : string) : bool :=
  endswith_any (lower p) image_suffixes.

(** The directory branch, entry by entry. *)
Definition visit (args : Args) (input_images : string) (e : string * entry)
  : list string :=
  let full_file := os_path_join input_images (fst e) in
  match snd e with
  | Dir _ => get_files args full_file (snd e)
  | File => if is_image_path full_file then [full_file] else []
  end.

(** [p] is the path [get_files] builds for a non-directory found in
    the tree [node] listed at [dir]. *)
Inductive leaf_at : string -> entry -> string -> Prop :=
| leaf_here (dir : string) (l : list (string * entry)) (name : string) :
    In (name, File) l ->
    leaf_at dir (Dir l) (os_path_join (fspath dir) name)
| leaf_below (dir : string) (l sub : list (string * entry)) (name p : string) :
    In (name, Dir sub) l ->
    leaf_at (os_path_join (fspath dir) name) (Dir sub) p ->
    leaf_at dir (Dir l) p.

(** ** Properties of the string builtins *)

Lemma app_cons_s (c : ascii) (a b : string) :
  String c a +:+ b = String c (a +:+ b).
Proof. reflexivity. Qed.

Lemma app_nil_l_s (s : string) : "" +:+ s = s.
Proof. reflexivity. Qed.

Lemma app_nil_r_s (s : string) : s +:+ "" = s.
Proof.
  induction s as [|c s IH]; [reflexivity|].
  now rewrite app_cons_s, IH.
Qed.

Lemma app_assoc_s (a b c : string) : (a +:+ b) +:+ c = a +:+ (b +:+ c).
Proof.
  induction a as [|x a IH]; [reflexivity|].
  now rewrite !app_cons_s, IH.
Qed.

(** [+:+] does not unfold under [simpl]; these two equations do it. *)
Ltac sapp := rewrite ?app_cons_s, ?app_nil_l_s in *.

Lemma startswith_spec (s p : string) :
  startswith s p = true <-> exists t, s = p +:+ t.
Proof.
  revert s. induction p as [|a p IH]; intros s.
  - split; [intros _; now exists s | intros _; now destruct s].
  - destruct s as [|b s]; simpl.
    + split; [discriminate | intros [t Ht]; discriminate].
    + destruct (Ascii.eqb_spec a b) as [->|Hab].
      * rewrite IH. split; intros [t Ht]; exists t; sapp; [now rewrite Ht | now inversion Ht].
      * split; [discriminate | intros [t Ht]; sapp; inversion Ht; congruence].
Qed.

Lemma endswith_eq (s suf : string) :
  endswith s suf =
  if String.eqb s suf then true
  else match s with
       | EmptyString => false
       | String _ s' => endswith s' suf
       end.
Proof. destruct s; reflexivity. Qed.

Lemma contains_eq (sub s : string) :
  contains sub s =
  if startswith s sub then true
  else match s with
       | EmptyString => false
       | String _ s' => contains sub s'
       end.
Proof. destruct s; reflexivity. Qed.

Lemma endswith_spec (s suf : string) :
  endswith s suf = true <-> exists pre, s = pre +:+ suf.
Proof.
  induction s as [|c s IH]; rewrite endswith_eq.
  - destruct (String.eqb_spec "" suf) as [<-|Hne]; simpl.
    + split; [intros _; now exists "" | reflexivity].
    + split; [discriminate|].
      intros [pre Hpre]. destruct pre; sapp; [congruence | discriminate].
  - destruct (String.eqb_spec (String c s) suf) as [<-|Hne]; simpl.
    + split; [intros _; now exists "" | reflexivity].
    + rewrite IH. split.
      * intros [pre ->]. now exists (String c pre).
      * intros [pre Hpre]. destruct pre as [|x pre]; sapp.
        -- congruence.
        -- inversion Hpre; subst. now exists pre.
Qed.

Lemma contains_spec (sub s : string) :
  contains sub s = true <-> exists pre post, s = pre +:+ sub +:+ post.
Proof.
  induction s as [|c s IH]; rewrite contains_eq.
  - destruct (startswith "" sub) eqn:E.
    + apply startswith_spec in E as [t Ht].
      split; [intros _; now exists "", t | reflexivity].
    + split; [discriminate|]. intros (pre & post & H).
      destruct pre; sapp; [|discriminate].
      assert (startswith "" sub = true) by (apply startswith_spec; eauto).
      congruence.
  - destruct (startswith (String c s) sub) eqn:E.
    + apply startswith_spec in E as [t Ht].
      split; [intros _; now exists "", t | reflexivity].
    + rewrite IH. split.
      * intros (pre & post & ->). now exists (String c pre), post.
      * intros (pre & post & H). destruct pre as [|x pre]; sapp.
        -- assert (startswith (String c s) sub = true)
             by (apply startswith_spec; eauto).
           congruence.
        -- inversion H; subst. now exists pre, post.
Qed.


Lemma mem_spec (x : string) (l : list string) : mem x l = true <-> In x l.
Proof.
  unfold mem. rewrite existsb_exists. split.
  - intros (y & Hy & E). apply String.eqb_eq in E. now subst.
  - intros H. exists x. split; [assumption | apply String.eqb_refl].
Qed.


Lemma no_slash_startswith (name : string) :
  string_existsb (Ascii.eqb "/") name = false -> startswith name "/" = false.
Proof.
  destruct name as [|c n]; [reflexivity|]. cbn [string_existsb startswith].
  destruct (Ascii.eqb "/" c); [discriminate | reflexivity].
Qed.

(** ** The file system *)

Lemma forallb_negb_existsb {A} (f : A -> bool) (l : list A) :
  forallb (fun a => negb (f a)) l = negb (existsb f l).
Proof.
  induction l as [|x l IH]; [reflexivity|].
  cbn [forallb existsb]. rewrite IH. now destruct (f x).
Qed.

(** [mkdir] touches nothing but the set of directories. *)
Lemma mkdir_parents_keeps (p : string) (w : world) :
  fs_files (snd (mkdir_parents p w)) = fs_files w
  /\ requests (snd (mkdir_parents p w)) = requests w
  /\ stdout (snd (mkdir_parents p w)) = stdout w.
Proof.
  unfold mkdir_parents.
  destruct (is_dir p w), (is_file p w),
    (existsb (fun a => is_file a w) (path_parents "" p)); repeat split; reflexivity.
Qed.

(** When nothing is in the way the directory is there afterwards. *)
Lemma mkdir_parents_can (p : string) (w : world) :
  can_mkdir p w = true ->
  mkdir_parents p w = (Ok tt, snd (mkdir_parents p w))
  /\ is_dir p (snd (mkdir_parents p w)) = true.
Proof.
  unfold can_mkdir, mkdir_parents. rewrite forallb_negb_existsb.
  destruct (is_dir p w) eqn:Edir; [intros _; split; [reflexivity | exact Edir]|].
  destruct (is_file p w); [discriminate|].
  destruct (existsb (fun a => is_file a w) (path_parents "" p)); [discriminate|].
  intros _. cbn [snd]. split; [reflexivity|].
  unfold is_dir. cbn [fs_dirs]. apply bool_decide_eq_true_2.
  apply elem_of_union. left. apply elem_of_union. right. now apply elem_of_singleton.
Qed.

(** When a regular file is in the way [mkdir] raises and makes nothing. *)
Lemma mkdir_parents_cannot (p : string) (w : world) :
  can_mkdir p w = false ->
  mkdir_parents p w = (Raise (FileExistsError p), w)
  \/ mkdir_parents p w = (Raise (NotADirectoryError p), w).
Proof.
  unfold can_mkdir, mkdir_parents. rewrite forallb_negb_existsb.
  destruct (is_dir p w); [discriminate|].
  destruct (is_file p w); [intros _; now left|].
  destruct (existsb (fun a => is_file a w) (path_parents "" p));
    [intros _; now right | discriminate].
Qed.

Lemma mkdir_parents_ok_dir (p : string) (w : world) :
  fst (mkdir_parents p w) = Ok tt -> is_dir p (snd (mkdir_parents p w)) = true.
Proof.
  intros H. destruct (can_mkdir p w) eqn:E.
  - now apply mkdir_parents_can.
  - destruct (mkdir_parents_cannot p w E) as [E'|E']; rewrite E' in H; discriminate.
Qed.

(** A directory that is there is left alone. *)
Lemma mkdir_parents_exists (p : string) (w : world) :
  is_dir p w = true -> mkdir_parents p w = (Ok tt, w).
Proof. intros H. unfold mkdir_parents. now rewrite H. Qed.

Lemma write_file_ok (p content : string) (w : world) :
  writable p w = true ->
  write_file p content w =
  (Ok tt, mkWorld (<[p := content]> (fs_files w)) (fs_dirs w) (requests w) (stdout w)).
Proof. intros H. unfold write_file. now rewrite H. Qed.

Lemma write_file_fails (p content : string) (w : world) :
  writable p w = false ->
  exists e, write_file p content w = (Raise e, w)
            /\ (e = IsADirectoryError p \/ e = NotADirectoryError p
                \/ e = FileNotFoundError p).
Proof.
  intros H. unfold write_file. rewrite H.
  destruct (is_dir p w || endswith p "/")%bool; [eauto|].
  destruct (existsb (fun a => is_file a w) (path_parents "" p)); eauto 6.
Qed.

(** [open] on a directory. *)
Lemma write_file_directory (p content : string) (w : world) :
  is_dir p w = true -> write_file p content w = (Raise (IsADirectoryError p), w).
Proof.
  intros H. unfold write_file, writable. rewrite H.
  now rewrite orb_true_r.
Qed.

Lemma path_parents_app (acc a b : string) :
  path_parents acc (a +:+ b) = path_parents acc a ++ path_parents (acc +:+ a) b.
Proof.
  revert acc. induction a as [|c a IH]; intros acc.
  - rewrite app_nil_l_s, app_nil_r_s. reflexivity.
  - rewrite app_cons_s. cbn [path_parents]. rewrite IH, <- app_assoc.
    rewrite app_assoc_s. reflexivity.
Qed.

Lemma path_parents_no_slash (acc n : string) :
  string_existsb (Ascii.eqb "/") n = false -> path_parents acc n = [].
Proof.
  revert acc. induction n as [|c n IH]; intros acc; [reflexivity|].
  cbn [string_existsb path_parents]. intros H. apply orb_false_elim in H as [Hc Hn].
  rewrite Ascii.eqb_sym, Hc. cbn [andb app]. now apply IH.
Qed.

(** The directory of [d/n] is [d]. *)
Lemma parent_dir_child (d n : string) :
  d <> "" -> string_existsb (Ascii.eqb "/") n = false ->
  parent_dir (d +:+ "/" +:+ n) = Some d.
Proof.
  intros Hd Hn. unfold parent_dir. rewrite path_parents_app.
  rewrite app_nil_l_s, app_cons_s, app_nil_l_s. cbn [path_parents].
  change (Ascii.eqb "/" "/") with true.
  destruct (String.eqb_spec d "") as [|_]; [contradiction|]. cbn [andb negb].
  rewrite (path_parents_no_slash _ n Hn), app_nil_r. apply last_snoc.
Qed.

Lemma endswith_pth (x : string) : endswith (x +:+ ".pth") "/" = false.
Proof.
  induction x as [|c x IH]; [reflexivity|].
  rewrite app_cons_s, endswith_eq, IH.
  destruct (String.eqb_spec (String c (x +:+ ".pth")) "/") as [E|_]; [|reflexivity].
  inversion E as [[Hc Hx]]. destruct x; discriminate.
Qed.

(** ** The checkpoint cache *)

Lemma model_keys_eq : model_keys = ["chadscorer"; "sac+logos+ava1-l14-linearMSE"].
Proof. reflexivity. Qed.


(** [ensure_model] by the outcome of [mkdir]. *)
Lemma ensure_model_eq (model : string) (w : world) :
  ensure_model model w =
  let cache_dir := user_cache_dir APP_NAME APP_AUTHOR in
  let full_file := os_path_join cache_dir (model +:+ ".pth") in
  match mkdir_parents cache_dir w with
  | (Raise e, w1) => (Raise e, w1)
  | (Ok _, w1) =>
      if path_exists full_file w1 then (Ok tt, w1)
      else if mem model model_keys then
        match dict_get model_to_host model with
        | None => (Raise (KeyError model), w1)
        | Some url =>
            (run print ("downloading " +:+ url);
             do r <- http_get url;
             run write_file full_file r;
             print ("saved to " +:+ full_file)) w1
        end
      else (Raise (ValueError (invalid_model_msg model)), w1)
  end.
Proof.
  unfold ensure_model. unfold bind at 1. cbv zeta.
  destruct (mkdir_parents _ w) as [[[]|e] w1]; [|reflexivity].
  destruct (path_exists _ w1); cbn [negb]; [reflexivity|].
  destruct (mem model model_keys); reflexivity.
Qed.

(** X28.  A regular file at the path of the cache directory, or of one
    of its ancestors, stops [ensure_model] at its first step, whatever
    the name, known or not, cached or not: [mkdir] raises, and nothing
    is printed, fetched or written. *)
Theorem ensure_model_blocked (model : string) (w : world) :
  can_mkdir (user_cache_dir APP_NAME APP_AUTHOR) w = false ->
  ensure_model model w = (Raise (FileExistsError (user_cache_dir APP_NAME APP_AUTHOR)), w)
  \/ ensure_model model w
     = (Raise (NotADirectoryError (user_cache_dir APP_NAME APP_AUTHOR)), w).
Proof.
  intros H. rewrite ensure_model_eq. cbv zeta.
  destruct (mkdir_parents_cannot _ w H) as [E|E]; rewrite E; [now left | now right].
Qed.


(** A name whose cache file is already there is accepted without a
    look at the known set, and nothing is fetched. *)
Lemma ensure_model_cached (model : string) (w : world) :
  can_mkdir (user_cache_dir APP_NAME APP_AUTHOR) w = true ->
  path_exists (os_path_join (user_cache_dir APP_NAME APP_AUTHOR) (model +:+ ".pth"))
              (snd (mkdir_parents (user_cache_dir APP_NAME APP_AUTHOR) w)) = true ->
  fst (ensure_model model w) = Ok tt
  /\ requests (snd (ensure_model model w)) = requests w
  /\ fs_files (snd (ensure_model model w)) = fs_files w.
Proof.
  intros Hdir Hold.
  destruct (mkdir_parents_keeps (user_cache_dir APP_NAME APP_AUTHOR) w) as (Hf & Hr & _).
  destruct (mkdir_parents_can _ w Hdir) as [Emk _].
  rewrite ensure_model_eq. cbv zeta. rewrite Emk, Hold.
  cbn [fst snd]. split; [reflexivity|]. split; assumption.
Qed.


(** ** The predictor loader *)

Lemma load_state_dict_shape (p : AestheticPredictor) (st : state_dict) :
  load_state_dict p st =
  if state_matches (expected_state 0 (layers p)) st
  then Ok (mkPredictor (input_size p) (layers p) (Some st) (on_device p) (training p))
  else Raise (RuntimeError "Error(s) in loading state_dict for AestheticPredictor").
Proof. reflexivity. Qed.

(** With the checkpoint in the cache, [load_model] is determined by
    the width [d] it picks. *)
Lemma load_model_cached (model clip_model device bytes : string)
      (st : state_dict) (w : world) :
  user_cache_dir APP_NAME APP_AUTHOR ∈ fs_dirs w ->
  fs_files w !! os_path_join (user_cache_dir APP_NAME APP_AUTHOR) (model +:+ ".pth")
    = Some bytes ->
  torch_load bytes = Some st ->
  let d := if contains "ViT-L" clip_model then 768
           else if contains "ViT-B" clip_model then 512 else 768 in
  fst (load_model model clip_model device w) =
  if state_matches (expected_state 0 (layers (AestheticPredictor_init d))) st
  then Ok (mkPredictor d (layers (AestheticPredictor_init d)) (Some st)
                       (Some device) false)
  else Raise (RuntimeError "Error(s) in loading state_dict for AestheticPredictor").
Proof.
  intros Hdir Hfile Hload d.
  unfold load_model. unfold bind at 1. rewrite ensure_model_eq. cbv zeta.
  rewrite mkdir_parents_exists by now apply bool_decide_eq_true_2.
  unfold path_exists. rewrite Hfile.
  rewrite bool_decide_eq_true_2 by (now exists bytes).
  cbn [orb]. unfold bind, read_checkpoint, lift, ret. rewrite Hfile, Hload.
  subst d.
  destruct (contains "ViT-L" clip_model); [|destruct (contains "ViT-B" clip_model)];
    rewrite load_state_dict_shape;
    match goal with
    | |- context [state_matches ?a ?b] => destruct (state_matches a b)
    end; reflexivity.
Qed.

(** C8.  The loader picks the input width by substring match on the
    encoder name: 768 when "ViT-L" occurs in it, otherwise 512 when
    "ViT-B" occurs in it, otherwise 768; with the cache directory in
    place and the checkpoint in it, it returns the predictor of that
    width (or the load error of [load_state_dict] when the checkpoint
    has other shapes). *)
Theorem load_model_input_size (model clip_model device bytes : string)
      (st : state_dict) (w : world) :
  user_cache_dir APP_NAME APP_AUTHOR ∈ fs_dirs w ->
  fs_files w !! os_path_join (user_cache_dir APP_NAME APP_AUTHOR) (model +:+ ".pth")
    = Some bytes ->
  torch_load bytes = Some st ->
  exists d : nat,
    (occurs_in "ViT-L" clip_model -> d = 768)
    /\ (~ occurs_in "ViT-L" clip_model -> occurs_in "ViT-B" clip_model -> d = 512)
    /\ (~ occurs_in "ViT-L" clip_model -> ~ occurs_in "ViT-B" clip_model -> d = 768)
    /\ layers (AestheticPredictor_init d)
       = [Linear d 1024; Dropout 0.2; Linear 1024 128; Dropout 0.2;
          Linear 128 64; Dropout 0.1; Linear 64 16; Linear 16 1]
    /\ fst (load_model model clip_model device w) =
       if state_matches (expected_state 0 (layers (AestheticPredictor_init d))) st
       then Ok (mkPredictor d (layers (AestheticPredictor_init d)) (Some st)
                            (Some device) false)
       else Raise (RuntimeError "Error(s) in loading state_dict for AestheticPredictor").
Proof.
  intros Hdir Hfile Hload.
  pose proof (load_model_cached model clip_model device bytes st w Hdir Hfile Hload) as H.
  cbv zeta in H.
  pose proof (contains_spec "ViT-L" clip_model) as HL.
  pose proof (contains_spec "ViT-B" clip_model) as HB.
  fold (occurs_in "ViT-L" clip_model) in HL.
  fold (occurs_in "ViT-B" clip_model) in HB.
  destruct (contains "ViT-L" clip_model) eqn:EL.
  - exists 768. repeat split; try assumption; try reflexivity.
    intros HnL _. exfalso. apply HnL, HL. reflexivity.
  - assert (HnL : ~ occurs_in "ViT-L" clip_model)
      by (intros HL'; apply HL in HL'; discriminate).
    destruct (contains "ViT-B" clip_model) eqn:EB.
    + exists 512. repeat split; try assumption; try reflexivity.
      * intros HL'. contradiction.
      * intros _ HnB. exfalso. apply HnB, HB. reflexivity.
    + exists 768. repeat split; try assumption; try reflexivity.
      intros _ HB'. apply HB in HB'. discriminate.
Qed.

(** ** Device resolution *)

(** C9.  Whenever the configured device is not the empty string
    ([None], "cpu", "cuda:0", ...), [get_device] returns the
    auto-detected device, whatever was configured; two such
    configurations resolve to the same device. *)
Theorem get_device_ignores_configured (args args' : Args) :
  device args <> Some "" ->
  device args' <> Some "" ->
  get_device args = torch_device (if cuda_is_available then "cuda" else "cpu")
  /\ get_device args = get_device args'.
Proof.
  intros H H'. unfold get_device.
  rewrite !bool_decide_eq_false_2 by assumption. split; reflexivity.
Qed.

(** Only the empty string reaches [torch.device] as configured. *)
Lemma get_device_empty (args : Args) :
  device args = Some "" -> get_device args = torch_device "".
Proof.
  intros H. unfold get_device. now rewrite bool_decide_eq_true_2.
Qed.

(** ** Normalisation *)

Lemma normalized_map (a : list (list F)) :
  normalized a =
  map (fun row =>
         map (fun x => fdiv x (if feqb (linalg_norm row) f0 then f1
                               else linalg_norm row)) row) a.
Proof.
  unfold normalized. induction a as [|row a IH]; [reflexivity|].
  cbn [map zip_with]. now rewrite IH.
Qed.

Lemma map_id_ext {A} (f : A -> A) (l : list A) :
  (forall x, f x = x) -> map f l = l.
Proof.
  intros Hf. induction l as [|x l IH]; cbn [map]; [reflexivity|].
  now rewrite Hf, IH.
Qed.

(** C4.  A row of zero norm comes back unchanged: its norm is replaced
    by one before the division, and dividing by one is exact.  As a
    zero norm rules out NaN and infinite entries, none is produced. *)
Theorem normalized_zero_norm (a : list (list F)) (i : nat) (row : list F) :
  (forall x, fdiv x f1 = x) ->
  (forall r, feqb (linalg_norm r) f0 = true -> forallb is_finite r = true) ->
  a !! i = Some row ->
  feqb (linalg_norm row) f0 = true ->
  exists out, normalized a !! i = Some out
              /\ out = row
              /\ forallb is_finite out = true.
Proof.
  intros Hdiv Hfin Hrow Hzero.
  exists row. split; [|split; [reflexivity | now apply Hfin]].
  rewrite normalized_map, list_lookup_fmap, Hrow. cbn [fmap option_fmap option_map].
  rewrite Hzero. f_equal. now apply map_id_ext.
Qed.


(** ** The sort of the aggregator *)

Section Sorting.
Context {A : Type} (key : A -> F).

Lemma insert_desc_perm (x : A) (l : list A) :
  Permutation (insert_desc key x l) (x :: l).
Proof.
  induction l as [|y l IH]; cbn [insert_desc]; [reflexivity|].
  destruct (flt (key x) (key y)); [|reflexivity].
  rewrite IH. apply perm_swap.
Qed.

Lemma sorted_desc_perm (l : list A) : Permutation (sorted_desc key l) l.
Proof.
  induction l as [|x l IH]; cbn [sorted_desc]; [reflexivity|].
  rewrite insert_desc_perm. now apply perm_skip.
Qed.

(** [insert_desc] moves [x] only past elements it is less than, so
    a class of mutually not-less elements keeps its order. *)
Lemma insert_desc_filter (P : A -> bool) (x : A) (l : list A) :
  (forall y, P x = true -> P y = true -> flt (key x) (key y) = false) ->
  List.filter P (insert_desc key x l) = List.filter P (x :: l).
Proof.
  intros HP. induction l as [|y l IH]; [reflexivity|].
  cbn [insert_desc]. destruct (flt (key x) (key y)) eqn:Exy; [|reflexivity].
  cbn [List.filter] in *. rewrite IH.
  destruct (P y) eqn:Py; [|reflexivity].
  destruct (P x) eqn:Px; [|reflexivity].
  specialize (HP y eq_refl Py). congruence.
Qed.

Lemma sorted_desc_filter (P : A -> bool) (l : list A) :
  (forall x y, P x = true -> P y = true -> flt (key x) (key y) = false) ->
  List.filter P (sorted_desc key l) = List.filter P l.
Proof.
  intros HP. induction l as [|x l IH]; [reflexivity|].
  cbn [sorted_desc]. rewrite insert_desc_filter by (apply HP).
  cbn [List.filter]. now rewrite IH.
Qed.

Lemma insert_desc_head (x : A) (l : list A) :
  HdRel (fun a b => flt (key a) (key b) = false) x l ->
  insert_desc key x l = x :: l.
Proof.
  intros H. destruct l as [|y l]; [reflexivity|].
  inversion H as [|? ? Hxy]; subst. cbn [insert_desc]. now rewrite Hxy.
Qed.

Lemma sorted_desc_fixes_descending (l : list A) :
  descending key l -> sorted_desc key l = l.
Proof.
  intros H. apply StronglySorted_Sorted in H.
  induction H as [|x l Hl IH Hx]; [reflexivity|].
  cbn [sorted_desc]. rewrite IH. now apply insert_desc_head.
Qed.

Section WeakOrder.
Hypothesis flt_asym : forall a b, flt a b = true -> flt b a = false.
Hypothesis flt_negtrans :
  forall a b c, flt a b = false -> flt b c = false -> flt a c = false.

Lemma insert_desc_descending (x : A) (l : list A) :
  descending key l -> descending key (insert_desc key x l).
Proof.
  unfold descending. intros H.
  induction H as [|y l Hl IH Hy]; cbn [insert_desc].
  - constructor; constructor.
  - destruct (flt (key x) (key y)) eqn:Exy.
    + constructor; [assumption|].
      apply List.Forall_forall. intros z Hz.
      apply (Permutation_in _ (insert_desc_perm x l)) in Hz.
      destruct Hz as [<-|Hz]; [now apply flt_asym|].
      rewrite List.Forall_forall in Hy. now apply Hy.
    + constructor; [constructor; assumption|].
      constructor; [assumption|].
      apply List.Forall_forall. intros z Hz.
      rewrite List.Forall_forall in Hy.
      apply (flt_negtrans _ (key y)); [assumption | now apply Hy].
Qed.

Lemma sorted_desc_descending (l : list A) : descending key (sorted_desc key l).
Proof.
  induction l as [|x l IH]; cbn [sorted_desc].
  - constructor.
  - now apply insert_desc_descending.
Qed.
End WeakOrder.
End Sorting.

(** C5.  When [<] is a strict weak order on the scores and equal
    scores are not less than one another, the sort of the aggregator
    returns a permutation of the records that is descending by score
    and keeps records of equal score in their original order; a
    sequence that is already descending is returned as it is. *)
Theorem sorted_desc_stable_descending (l : list ScoreRecord) :
  (forall a b, flt a b = true -> flt b a = false) ->
  (forall a b c, flt a b = false -> flt b c = false -> flt a c = false) ->
  (forall a b v, feqb a v = true -> feqb b v = true -> flt a b = false) ->
  Permutation (sorted_desc score l) l
  /\ descending score (sorted_desc score l)
  /\ (forall v, List.filter (fun r => feqb (score r) v) (sorted_desc score l)
                = List.filter (fun r => feqb (score r) v) l)
  /\ (descending score l -> sorted_desc score l = l)
  /\ sorted_desc score (sorted_desc score l) = sorted_desc score l.
Proof.
  intros Hasym Hneg Heq. repeat split.
  - apply sorted_desc_perm.
  - now apply sorted_desc_descending.
  - intros v. apply sorted_desc_filter. intros x y Hx Hy. now apply (Heq _ _ v).
  - apply sorted_desc_fixes_descending.
  - apply sorted_desc_fixes_descending. now apply sorted_desc_descending.
Qed.


(** ** Aggregation and report *)

Lemma print_scores_eq (l : list ScoreRecord) (w : world) :
  print_scores l w =
  (Ok tt, mkWorld (fs_files w) (fs_dirs w) (requests w)
                  (stdout w ++ map score_line l)).
Proof.
  revert w. induction l as [|r l IH]; intros w.
  - cbn [print_scores map]. unfold ret. rewrite app_nil_r. now destruct w.
  - cbn [print_scores map]. unfold bind, print at 1. rewrite IH.
    cbn [fs_files fs_dirs requests stdout]. now rewrite <- app_assoc.
Qed.

Lemma writable_same_dirs (p : string) (w w' : world) :
  fs_dirs w' = fs_dirs w -> writable p w' = writable p w.
Proof. intros H. unfold writable, is_dir. now rewrite H. Qed.

(** [save_to_csv] when the file can be opened ... *)
Lemma save_to_csv_ok (l : list ScoreRecord) (full_path : string)
      (name : option string) (w : world) :
  let f := match name with
           | None => "scores-" +:+ pretty now +:+ ".csv"
           | Some f => f
           end in
  writable f w = true ->
  save_to_csv l full_path name w =
  (Ok tt, mkWorld (<[f := csv_text (fieldnames :: map (csv_record full_path) l)]>
                     (fs_files w))
                  (fs_dirs w) (requests w)
                  (stdout w ++ ["Saved CSV to " +:+ f])).
Proof.
  intros f Hw. unfold save_to_csv, bind. fold f. now rewrite write_file_ok.
Qed.

(** ... and when it cannot: [open] raises before anything is written
    or printed. *)
Lemma save_to_csv_fails (l : list ScoreRecord) (full_path : string)
      (name : option string) (w : world) :
  let f := match name with
           | None => "scores-" +:+ pretty now +:+ ".csv"
           | Some f => f
           end in
  writable f w = false ->
  exists e, save_to_csv l full_path name w = (Raise e, w)
            /\ (is_dir f w = true -> e = IsADirectoryError f).
Proof.
  intros f Hw. unfold save_to_csv, bind. fold f.
  destruct (write_file_fails f (csv_text (fieldnames :: map (csv_record full_path) l))
                             w Hw) as (e & E & _).
  exists e. split; [now rewrite E|].
  intros Hdir. rewrite write_file_directory in E by assumption. congruence.
Qed.

Lemma sorted_desc_length {A} (key : A -> F) (l : list A) :
  length (sorted_desc key l) = length l.
Proof. apply Permutation_length, sorted_desc_perm. Qed.

(** What [report] does with no record. *)
Lemma report_nil (args : Args) (w : world) :
  report args [] w =
  (Ok tt, mkWorld (fs_files w) (fs_dirs w) (requests w)
                  (stdout w ++ ["no scores. Did you put the correct directory/image in?"])).
Proof.
  unfold report. cbn [sorted_desc length Nat.ltb Nat.leb].
  unfold bind, ret, print. reflexivity.
Qed.

(** The lines of the scores, printed first. *)
Lemma report_scores_printed (l : list ScoreRecord) (w : world) :
  (if (length l <? 300)%nat then print_scores (sorted_desc score l) else ret tt) w =
  (Ok tt, mkWorld (fs_files w) (fs_dirs w) (requests w)
                  (stdout w ++ (if (length l <? 300)%nat
                                then map score_line (sorted_desc score l) else []))).
Proof.
  destruct (length l <? 300)%nat.
  - apply print_scores_eq.
  - unfold ret. rewrite app_nil_r. now destruct w.
Qed.

(** What [report] does with at least one record, when the CSV file,
    if one is asked for, can be opened. *)
Lemma report_cons (args : Args) (l : list ScoreRecord) (w : world) :
  l <> [] ->
  (save_csv args = true -> writable (csv_name args) w = true) ->
  let sorted_scores := sorted_desc score l in
  report args l w =
  (Ok tt,
   mkWorld
     (if save_csv args
      then <[csv_name args :=
               csv_text (fieldnames :: map (csv_record (csv_prefix args)) l)]>
             (fs_files w)
      else fs_files w)
     (fs_dirs w) (requests w)
     ((stdout w
       ++ (if (length l <? 300)%nat then map score_line sorted_scores else []))
       ++ (if save_csv args then ["Saved CSV to " +:+ csv_name args] else [])
       ++ ["average score: "
           +:+ repr (fdiv (total_score sorted_scores) (f_of_nat (length l)))])).
Proof.
  intros Hne Hw sorted_scores. unfold report.
  fold (total_score (sorted_desc score l)).
  rewrite !sorted_desc_length. fold sorted_scores.
  assert (Hpos : (0 <? length l)%nat = true).
  { destruct l; [contradiction | reflexivity]. }
  rewrite Hpos. unfold bind.
  rewrite report_scores_printed. fold sorted_scores.
  destruct (save_csv args).
  - rewrite save_to_csv_ok.
    + cbv zeta. fold (csv_name args). fold (csv_prefix args).
      unfold print. cbn [fs_files fs_dirs requests stdout].
      now rewrite <- !app_assoc.
    + fold (csv_name args).
      rewrite (writable_same_dirs _ w) by reflexivity. now apply Hw.
  - unfold ret, print. cbn [fs_files fs_dirs requests stdout app].
    reflexivity.
Qed.

(** What it does when the CSV file cannot be opened: the scores are
    printed, [open] raises, and neither the notice nor the average
    follows. *)
Lemma report_csv_fails (args : Args) (l : list ScoreRecord) (w : world) :
  l <> [] ->
  save_csv args = true ->
  writable (csv_name args) w = false ->
  exists e,
    report args l w =
    (Raise e,
     mkWorld (fs_files w) (fs_dirs w) (requests w)
             (stdout w ++ (if (length l <? 300)%nat
                           then map score_line (sorted_desc score l) else [])))
    /\ (is_dir (csv_name args) w = true -> e = IsADirectoryError (csv_name args)).
Proof.
  intros Hne Hsave Hw. unfold report.
  rewrite !sorted_desc_length.
  assert (Hpos : (0 <? length l)%nat = true).
  { destruct l; [contradiction | reflexivity]. }
  rewrite Hpos, Hsave. unfold bind.
  rewrite report_scores_printed.
  match goal with
  | |- context [save_to_csv l ?fp ?name ?w1] =>
      destruct (save_to_csv_fails l fp name w1) as (e & E & He)
  end.
  - fold (csv_name args). rewrite (writable_same_dirs _ w) by reflexivity. exact Hw.
  - exists e. split; [now rewrite E | exact He].
Qed.

(** The report sends no request and makes no directory, however it ends. *)
Lemma report_keeps (args : Args) (l : list ScoreRecord) (w : world) :
  requests (snd (report args l w)) = requests w
  /\ fs_dirs (snd (report args l w)) = fs_dirs w.
Proof.
  destruct l as [|r l]; [rewrite report_nil; split; reflexivity|].
  destruct (save_csv args) eqn:Esave.
  - destruct (writable (csv_name args) w) eqn:Ew.
    + rewrite (report_cons args (r :: l) w); [split; reflexivity | discriminate | auto].
    + destruct (report_csv_fails args (r :: l) w ltac:(discriminate) Esave Ew)
        as (e & E & _).
      rewrite E. split; reflexivity.
  - rewrite (report_cons args (r :: l) w); [split; reflexivity | discriminate |].
    intros H. congruence.
Qed.



(** Without a prefix the path is written as it is. *)
Lemma os_path_join_empty (b : string) : os_path_join "" b = b.
Proof. unfold os_path_join. now destruct (startswith b "/"). Qed.

(** Counting the lines of a CSV text. *)
Lemma count_char_app (c : ascii) (a b : string) :
  count_char c (a +:+ b) = count_char c a + count_char c b.
Proof.
  induction a as [|x a IH]; [reflexivity|].
  rewrite app_cons_s. cbn [count_char]. rewrite IH. lia.
Qed.

Lemma count_char_csv_escape (c : ascii) (s : string) :
  c <> dquote -> count_char c (csv_escape s) = count_char c s.
Proof.
  intros Hc. induction s as [|x s IH]; [reflexivity|].
  cbn [csv_escape]. destruct (Ascii.eqb_spec x dquote) as [->|Hx].
  - cbn [count_char]. rewrite IH.
    destruct (Ascii.eqb_spec dquote c) as [E|_]; [congruence | lia].
  - cbn [count_char]. now rewrite IH.
Qed.

Lemma line_feeds_csv_field (s : string) :
  line_feeds (csv_field s) = line_feeds s.
Proof.
  unfold line_feeds, csv_field. destruct (string_existsb csv_special s); [|reflexivity].
  cbn [count_char]. rewrite count_char_app, count_char_csv_escape by discriminate.
  cbn. lia.
Qed.

Lemma line_feeds_join (fields : list string) :
  Forall (fun f => line_feeds f = 0) fields ->
  line_feeds (join "," fields) = 0.
Proof.
  unfold line_feeds. induction 1 as [|f l Hf Hl IH]; [reflexivity|].
  destruct l as [|g l]; [exact Hf|].
  change (join "," (f :: g :: l)) with (f +:+ "," +:+ join "," (g :: l)).
  rewrite !count_char_app, Hf, IH. reflexivity.
Qed.

Lemma line_feeds_csv_row (fields : list string) :
  Forall (fun f => line_feeds f = 0) fields ->
  line_feeds (csv_row fields) = 1.
Proof.
  intros H. unfold csv_row. unfold line_feeds at 1. rewrite count_char_app.
  fold (line_feeds (join "," (map csv_field fields))).
  rewrite line_feeds_join; [reflexivity|].
  apply List.Forall_forall. intros f Hf. apply in_map_iff in Hf as (g & <- & Hg).
  rewrite line_feeds_csv_field. rewrite List.Forall_forall in H. now apply H.
Qed.

Lemma line_feeds_csv_text (rows : list (list string)) :
  Forall (Forall (fun f => line_feeds f = 0)) rows ->
  line_feeds (csv_text rows) = length rows.
Proof.
  unfold csv_text. induction 1 as [|r l Hr Hl IH]; [reflexivity|].
  cbn [map length]. destruct l as [|r' l].
  - cbn [map String.concat]. now apply line_feeds_csv_row.
  - change (String.concat "" (csv_row r :: map csv_row (r' :: l)))
      with (csv_row r +:+ "" +:+ String.concat "" (map csv_row (r' :: l))).
    unfold line_feeds in *. rewrite !count_char_app, IH.
    fold (line_feeds (csv_row r)). rewrite line_feeds_csv_row by assumption.
    reflexivity.
Qed.

Lemma csv_field_plain (s : string) :
  string_existsb csv_special s = false -> csv_field s = s.
Proof. intros H. unfold csv_field. now rewrite H. Qed.

Lemma concat_map_ext {A} (f g : A -> string) (l : list A) :
  Forall (fun x => f x = g x) l ->
  String.concat "" (map f l) = String.concat "" (map g l).
Proof.
  intros H. f_equal. induction H as [|x l Hx Hl IH]; [reflexivity|].
  cbn [map]. now rewrite Hx, IH.
Qed.

(** C7 (as amended).  When [--save_csv] is given, there is a record
    and the file can be opened, the file written holds the header
    [file,score] and then one row per record in the order the records
    were produced (not the sorted order): the file name joined to the
    prefix ([os.path.join]: the name itself without a prefix or when
    the name is absolute, else prefix, slash, name), a comma and the
    printed score.  The text has one line per row, so three lines for
    two records, when no path and no printed score holds a line feed. *)
Theorem save_csv_original_order (args : Args) (l : list ScoreRecord) (w : world) :
  save_csv args = true ->
  l <> [] ->
  writable (csv_name args) w = true ->
  let prefix := if store_full_path args then image_file_or_dir args else "" in
  let row := fun r => csv_field (os_path_join prefix (file r)) +:+ ","
                      +:+ csv_field (repr (score r)) +:+ crlf in
  let text := ("file,score" +:+ crlf) +:+ String.concat "" (map row l) in
  fst (report args l w) = Ok tt
  /\ fs_files (snd (report args l w)) = <[csv_name args := text]> (fs_files w)
  /\ (Forall (fun r => string_existsb csv_special (os_path_join prefix (file r)) = false
                       /\ string_existsb csv_special (repr (score r)) = false) l ->
      text = ("file,score" +:+ crlf)
             +:+ String.concat ""
                   (map (fun r => os_path_join prefix (file r) +:+ ","
                                  +:+ repr (score r) +:+ crlf) l))
  /\ (forall f, os_path_join "" f = f)
  /\ (forall f, startswith f "/" = true -> os_path_join prefix f = f)
  /\ (forall f, startswith f "/" = false -> prefix <> "" -> endswith prefix "/" = false ->
                os_path_join prefix f = prefix +:+ "/" +:+ f)
  /\ (Forall (fun r => line_feeds (os_path_join prefix (file r)) = 0
                        /\ line_feeds (repr (score r)) = 0) l ->
      line_feeds text = S (length l)
      /\ (length l = 2 -> line_feeds text = 3)).
Proof.
  intros Hsave Hne Hw prefix row text.
  rewrite (report_cons args l w Hne (fun _ => Hw)). cbv zeta.
  rewrite Hsave. cbn [fst snd fs_files].
  assert (Etext : csv_text (fieldnames :: map (csv_record (csv_prefix args)) l) = text).
  { transitivity (("file,score" +:+ crlf)
                  +:+ String.concat ""
                        (map (fun r => csv_row (csv_record (csv_prefix args) r)) l)).
    - unfold csv_text. cbn [map]. rewrite map_map.
      destruct l as [|r l]; [contradiction|]. reflexivity.
    - subst text. f_equal. apply concat_map_ext, List.Forall_forall. intros r _.
      subst row. cbv beta. unfold csv_row, csv_record. cbn [map join].
      fold (csv_prefix args). now rewrite !app_assoc_s. }
  split; [reflexivity|]. split; [now rewrite Etext|].
  split; [|split; [|split; [|split]]].
  - intros Hplain. subst text. f_equal. apply concat_map_ext.
    eapply Forall_impl; [exact Hplain|]. intros r [Hp Hs]. subst row. cbv beta.
    now rewrite !csv_field_plain.
  - apply os_path_join_empty.
  - intros f Hf. unfold os_path_join. now rewrite Hf.
  - intros f Hf Hp He. unfold os_path_join. rewrite Hf, He.
    now destruct (String.eqb_spec prefix "").
  - intros Hlf.
    assert (Hn : line_feeds text = S (length l)).
    { rewrite <- Etext, line_feeds_csv_text.
      + cbn [length]. now rewrite length_map.
      + constructor; [repeat constructor|].
        apply List.Forall_forall. intros fields Hfields.
        apply in_map_iff in Hfields as (r & <- & Hr).
        rewrite List.Forall_forall in Hlf. destruct (Hlf r Hr) as [Hp Hs].
        unfold csv_record. repeat constructor; assumption. }
    split; [exact Hn|]. intros H2. now rewrite Hn, H2.
Qed.


(** ** The total of the progress bar *)

Section Ceiling.
Local Open Scope Z_scope.

Lemma round_half_even_error (n d : Z) :
  0 < d -> 2 * Z.abs (round_half_even n d * d - n) <= d.
Proof.
  intros Hd. unfold round_half_even.
  pose proof (Z.div_mod n d ltac:(lia)) as Hdm.
  pose proof (Z.mod_pos_bound n d Hd) as Hb.
  set (q := n / d) in *. set (r := n mod d) in *.
  destruct (Z.ltb_spec (2 * r) d); [nia|].
  destruct (Z.ltb_spec d (2 * r)); [nia|].
  destruct (Z.even q); nia.
Qed.

Lemma floor_log2_lower (n d : Z) :
  0 < n -> 0 < d -> 0 <= floor_log2 n d -> d * 2 ^ floor_log2 n d <= n.
Proof.
  intros Hn Hd. unfold floor_log2, pow2.
  pose proof (Z.log2_spec n Hn) as [Hn1 Hn2].
  pose proof (Z.log2_spec d Hd) as [Hd1 Hd2].
  pose proof (Z.log2_nonneg n) as Hln. pose proof (Z.log2_nonneg d) as Hld.
  set (k := Z.log2 n - Z.log2 d) in *.
  destruct (Z.ltb_spec (n * 2 ^ Z.max 0 (- k)) (d * 2 ^ Z.max 0 k)) as [Hlt|Hge].
  - intros Hk.
    assert (E : 2 ^ Z.succ (Z.log2 d) * 2 ^ (k - 1) = 2 ^ Z.log2 n).
    { rewrite <- Z.pow_add_r by lia. f_equal. lia. }
    assert (0 < 2 ^ (k - 1)) by (apply Z.pow_pos_nonneg; lia).
    nia.
  - intros Hk. rewrite (Z.max_l 0 (- k)), (Z.max_r 0 k) in Hge by lia.
    rewrite Z.pow_0_r in Hge. lia.
Qed.

Lemma ceil_unique (m S k : Z) :
  0 < S -> (k - 1) * S < m <= k * S -> - ((- m) / S) = k.
Proof.
  intros HS [H1 H2].
  assert (E : (- m) / S = - k); [|lia].
  symmetry. apply (Z.div_unique_pos _ _ _ (k * S - m)); lia.
Qed.

(** For a dividend and a divisor below [2 ^ 53] the float quotient is
    close enough for its ceiling to be the exact one. *)
Lemma ceil_true_div_exact (a b : Z) :
  0 <= a < 2 ^ 53 -> 0 < b < 2 ^ 53 ->
  exists q, int_true_div a b = Ok q /\ ceil q = (a + b - 1) / b.
Proof.
  intros [Ha0 Ha] [Hb0 Hb]. unfold int_true_div.
  destruct (Z.eqb_spec b 0) as [|_]; [lia|].
  destruct (Z.eqb_spec a 0) as [->|Ha1].
  - eexists. split; [reflexivity|]. unfold ceil. cbn [mantissa exponent].
    rewrite Z.shiftl_0_r. symmetry. apply Z.div_small. lia.
  - assert (Hapos : 0 < a) by lia.
    eexists. split; [reflexivity|]. unfold ceil. cbn [mantissa exponent].
    rewrite (Z.abs_eq a), (Z.abs_eq b), (Z.sgn_pos a), (Z.sgn_pos b) by lia.
    unfold nearest_double. cbn [mantissa exponent].
    pose proof (floor_log2_lower a b Hapos Hb0) as Hfl.
    set (fl := floor_log2 a b) in *.
    (* the exact ceiling *)
    pose proof (Z.div_mod (a + b - 1) b ltac:(lia)) as Hdm.
    pose proof (Z.mod_pos_bound (a + b - 1) b Hb0) as Hmb.
    set (k := (a + b - 1) / b) in *.
    assert (Hk : (k - 1) * b < a <= k * b) by nia.
    destruct (Z.le_gt_cases 52 fl) as [Hbig|Hsmall].
    + (* at least 2^52: the quotient is the integer [a] itself *)
      specialize (Hfl ltac:(lia)).
      assert (H52 : 2 ^ 52 <= 2 ^ fl) by (apply Z.pow_le_mono_r; lia).
      assert (Hb1 : b = 1) by nia. subst b.
      assert (Hfl52 : fl = 52).
      { destruct (Z.le_gt_cases 53 fl) as [H53|]; [|lia].
        assert (2 ^ 53 <= 2 ^ fl) by (apply Z.pow_le_mono_r; lia). lia. }
      rewrite Hfl52. cbn -[Z.mul Z.div Z.modulo round_half_even].
      unfold round_half_even. rewrite !Z.mul_1_r, Z.div_1_r, Z.mod_1_r.
      change (Z.max (52 - 52) (-1074)) with 0. change (2 * 0 <? 1) with true.
      cbv iota. rewrite Z.shiftl_0_r. lia.
    + (* below: the quotient is rounded to a multiple of 2^e, e < 0 *)
      set (e := Z.max (fl - 52) (-1074)).
      assert (He : e < 0) by (subst e; lia).
      unfold pow2. rewrite (Z.max_l 0 e), (Z.max_r 0 (- e)) by lia.
      rewrite Z.pow_0_r. replace (b * 1) with b by lia.
      set (S := 2 ^ (- e)).
      assert (HS : 0 < S) by (apply Z.pow_pos_nonneg; lia).
      pose proof (round_half_even_error (a * S) b Hb0) as Herr.
      set (m := round_half_even (a * S) b) in *.
      rewrite Z.mul_1_l, Z.shiftl_div_pow2 by lia. fold S.
      assert (H2S : b < 2 * S).
      { destruct (Z.le_gt_cases 0 fl) as [Hpos|Hneg].
        - specialize (Hfl Hpos).
          assert (Ee : e = fl - 52) by (subst e; lia).
          assert (E : 2 ^ fl * (2 * S) = 2 ^ 53).
          { subst S. rewrite Ee. rewrite <- (Z.pow_1_r 2) at 2.
            rewrite <- !Z.pow_add_r by lia. f_equal. lia. }
          assert (0 < 2 ^ fl) by (apply Z.pow_pos_nonneg; lia).
          nia.
        - assert (2 ^ 53 <= S) by (subst S; apply Z.pow_le_mono_r; subst e; lia).
          lia. }
      apply ceil_unique; [assumption|].
      assert (Hlo : ((k - 1) * b + 1) * S <= a * S) by (apply Z.mul_le_mono_nonneg_r; lia).
      assert (Hhi : a * S <= k * b * S) by (apply Z.mul_le_mono_nonneg_r; lia).
      clearbody m S k fl e. clear Hdm Hmb Hfl.
      split.
      * assert (H : b * (2 * (k - 1) * S) < b * (2 * m)) by lia.
        apply Z.mul_lt_mono_pos_l in H; lia.
      * assert (H : b * (2 * m) < b * (2 * k * S + 2)) by lia.
        apply Z.mul_lt_mono_pos_l in H; lia.
Qed.

Lemma int_true_div_ok (a b : Z) :
  b <> 0 -> exists q, int_true_div a b = Ok q.
Proof.
  intros Hb. unfold int_true_div.
  destruct (Z.eqb_spec b 0) as [|_]; [contradiction|].
  destruct (a =? 0); eauto.
Qed.

End Ceiling.

(** ** The scoring loop *)

(** The predictor takes float32 rows of its input width ... *)
Lemma predictor_scores_ok (images : list image) (predictor : AestheticPredictor)
      (wdtype : dtype) :
  wdtype = float32 ->
  encoder_fits predictor ->
  get_aesthetic_predictor_scores images predictor wdtype
  = Ok (forward predictor wdtype (get_image_features images)).
Proof.
  intros -> Hfit. unfold get_aesthetic_predictor_scores, predictor_call, param_dtype.
  cbn [dtype_eqb andb].
  replace (forallb _ (get_image_features images)) with true; [reflexivity|].
  symmetry. apply forallb_forall. intros out Hout.
  unfold get_image_features in Hout. rewrite normalized_map in Hout.
  apply in_map_iff in Hout as (row & <- & Hrow).
  rewrite length_map. apply Nat.eqb_eq.
  specialize (Hfit images). rewrite List.Forall_forall in Hfit. now apply Hfit.
Qed.

(** ... and nothing in half precision: the weights stay float32. *)
Lemma predictor_scores_half (images : list image) (predictor : AestheticPredictor)
      (wdtype : dtype) :
  wdtype <> float32 ->
  get_aesthetic_predictor_scores images predictor wdtype
  = Raise (RuntimeError "linear: dtype or shape mismatch").
Proof.
  intros Hdt. unfold get_aesthetic_predictor_scores, predictor_call, param_dtype.
  destruct wdtype; [contradiction | reflexivity | reflexivity].
Qed.

(** The chunks of a positive batch size, by position. *)
Lemma chunks_pos {A} (lst : list A) (n : Z) :
  (0 < n)%Z ->
  chunks lst n =
  Ok (map (fun k => firstn (Z.to_nat n) (skipn (k * Z.to_nat n) lst))
          (seq 0 (Z.to_nat ((Z.of_nat (length lst) + n - 1) / n)))).
Proof.
  intros Hn. unfold chunks, py_range.
  destruct (Z.eqb_spec n 0) as [->|_]; [lia|].
  destruct (Z.ltb_spec 0 n) as [_|]; [|lia].
  cbn [rbind]. f_equal. rewrite map_map.
  replace (Z.of_nat (length lst) - 0 + n - 1)%Z
    with (Z.of_nat (length lst) + n - 1)%Z by lia.
  apply map_ext. intros k. unfold py_slice.
  replace (0 + Z.of_nat k * n + n - (0 + Z.of_nat k * n))%Z with n by lia.
  replace (Z.to_nat (0 + Z.of_nat k * n)) with (k * Z.to_nat n)%nat; [reflexivity|].
  rewrite Z.add_0_l, Z2Nat.inj_mul, Nat2Z.id by lia. reflexivity.
Qed.

Lemma skipn_skipn_mul {A} (m k : nat) (l : list A) :
  skipn (S k * m) l = skipn (k * m) (skipn m l).
Proof.
  rewrite skipn_skipn. f_equal. lia.
Qed.

(** Cutting [l] into [c] pieces of [m] loses nothing when [c * m]
    reaches the length. *)
Lemma concat_pieces {A} (m c : nat) (l : list A) :
  (length l <= c * m)%nat ->
  concat (map (fun k => firstn m (skipn (k * m) l)) (seq 0 c)) = l.
Proof.
  revert l. induction c as [|c IH]; intros l Hlen.
  - destruct l; [reflexivity | cbn in Hlen; lia].
  - cbn [seq map concat]. rewrite <- seq_shift, map_map.
    rewrite (map_ext _ (fun k => firstn m (skipn (k * m) (skipn m l))))
      by (intros k; now rewrite skipn_skipn_mul).
    rewrite IH.
    + cbn [Nat.mul skipn]. apply firstn_skipn.
    + rewrite length_skipn. lia.
Qed.

Lemma piece_nonempty {A} (m k : nat) (l : list A) :
  (0 < m)%nat -> (k * m < length l)%nat -> firstn m (skipn (k * m) l) <> [].
Proof.
  intros Hm Hk E. apply (f_equal (@length A)) in E.
  rewrite length_firstn, length_skipn in E. cbn [length] in E. lia.
Qed.

Lemma chunk_count_bounds (len n : Z) :
  (0 <= len)%Z -> (0 < n)%Z ->
  let c := ((len + n - 1) / n)%Z in
  (0 <= c /\ len <= c * n /\ (c - 1) * n < len \/ len = 0 /\ c = 0)%Z.
Proof.
  intros Hlen Hn c.
  pose proof (Z.div_mod (len + n - 1) n ltac:(lia)) as Hdm.
  pose proof (Z.mod_pos_bound (len + n - 1) n Hn) as Hb.
  fold c in Hdm.
  destruct (Z.eq_dec len 0%Z) as [->|Hpos].
  - right. split; [reflexivity|]. subst c.
    apply Z.div_small. lia.
  - left. nia.
Qed.

(** [chunks] cuts the files into consecutive non-empty pieces. *)
Lemma chunks_partition {A} (lst : list A) (n : Z) :
  (0 < n)%Z ->
  exists cs, chunks lst n = Ok cs
             /\ Forall (fun c => c <> []) cs
             /\ concat cs = lst
             /\ (lst <> [] -> exists rest, cs = firstn (Z.to_nat n) lst :: rest).
Proof.
  intros Hn. rewrite (chunks_pos lst n Hn).
  eexists. split; [reflexivity|].
  set (m := Z.to_nat n).
  set (c := Z.to_nat ((Z.of_nat (length lst) + n - 1) / n)).
  assert (Hm : (0 < m)%nat) by (subst m; lia).
  destruct (chunk_count_bounds (Z.of_nat (length lst)) n ltac:(lia) Hn)
    as [(Hc0 & Hc1 & Hc2)|(Hl0 & Hc0)].
  - assert (Hcm : (length lst <= c * m)%nat) by (subst c m; nia).
    assert (Hlast : ((c - 1) * m < length lst \/ c = 0)%nat) by (subst c m; nia).
    split; [|split].
    + apply List.Forall_forall. intros x Hx.
      apply in_map_iff in Hx as (k & <- & Hk). apply in_seq in Hk.
      apply piece_nonempty; [assumption | nia].
    + now apply concat_pieces.
    + intros Hne. destruct c as [|c'].
      * destruct lst; [contradiction | cbn in Hcm; lia].
      * cbn [seq map]. eexists. reflexivity.
  - assert (lst = []) as -> by (destruct lst; [reflexivity | cbn in Hl0; lia]).
    subst c. cbn [length] in *. rewrite Hc0. cbn.
    split; [constructor | split; [reflexivity | intros []; reflexivity]].
Qed.

Lemma decode_loop_ok (fv : option string) (images : list image)
      (files_s : list string) :
  Forall (fun f => is_Some (open_image f)) files_s ->
  decode_loop fv images files_s =
  Ok (match files_s with
      | [] => fv
      | _ => Some (List.last files_s "")
      end, images ++ omap open_image files_s).
Proof.
  intros H. revert fv images.
  induction H as [|f l [img Himg] Hl IH]; intros fv images.
  - cbn. now rewrite app_nil_r.
  - cbn [decode_loop omap list_omap]. rewrite Himg.
    rewrite IH. cbn. rewrite <- app_assoc. cbn [app].
    destruct l; reflexivity.
Qed.

Lemma append_loop_ok (f : string) (acc : list ScoreRecord) (ae_scores : list F) :
  append_loop (Some f) acc ae_scores = Ok (acc ++ map (mkScore f) ae_scores).
Proof.
  revert acc. induction ae_scores as [|x l IH]; intros acc.
  - cbn. now rewrite app_nil_r.
  - cbn [append_loop map]. rewrite IH. now rewrite <- app_assoc.
Qed.

(** One pass through the loop body with a progress bar in place. *)
Lemma loop_body_ok (args : Args) (predictor : AestheticPredictor) (wdtype : dtype)
      (st : locals) (bar : tqdm) (files_s : list string) :
  wdtype = float32 ->
  encoder_fits predictor ->
  progress_bar st = Some bar ->
  files_s <> [] ->
  Forall (fun f => is_Some (open_image f)) files_s ->
  exists st',
    loop_body args predictor wdtype st files_s = Ok st'
    /\ scores st' = scores st ++ chunk_records predictor wdtype files_s
    /\ file_var st' = Some (List.last files_s "")
    /\ is_Some (progress_bar st').
Proof.
  intros Hdt Hfit Hbar Hne Hdec. unfold loop_body.
  rewrite (decode_loop_ok _ _ _ Hdec). cbn [rbind fst snd app].
  rewrite (predictor_scores_ok _ _ _ Hdt Hfit). cbn [rbind].
  destruct files_s as [|f l]; [contradiction|].
  rewrite append_loop_ok. cbn [rbind]. rewrite Hbar.
  eexists. split; [reflexivity|]. cbn [scores file_var progress_bar].
  repeat split. eauto.
Qed.

(** One pass through the loop body without one. *)
Lemma loop_body_unbound (args : Args) (predictor : AestheticPredictor)
      (wdtype : dtype) (st : locals) (files_s : list string) :
  wdtype = float32 ->
  encoder_fits predictor ->
  progress_bar st = None ->
  files_s <> [] ->
  Forall (fun f => is_Some (open_image f)) files_s ->
  loop_body args predictor wdtype st files_s = Raise (NameError "progress_bar").
Proof.
  intros Hdt Hfit Hbar Hne Hdec. unfold loop_body.
  rewrite (decode_loop_ok _ _ _ Hdec). cbn [rbind fst snd app].
  rewrite (predictor_scores_ok _ _ _ Hdt Hfit). cbn [rbind].
  destruct files_s as [|f l]; [contradiction|].
  rewrite append_loop_ok. cbn [rbind]. now rewrite Hbar.
Qed.

Lemma for_each_loop_body (args : Args) (predictor : AestheticPredictor)
      (wdtype : dtype) (cs : list (list string)) (st : locals) :
  wdtype = float32 ->
  encoder_fits predictor ->
  is_Some (progress_bar st) ->
  Forall (fun c => c <> []) cs ->
  Forall (fun f => is_Some (open_image f)) (concat cs) ->
  exists st',
    for_each (loop_body args predictor wdtype) st cs = Ok st'
    /\ scores st' = scores st ++ flat_map (chunk_records predictor wdtype) cs.
Proof.
  intros Hdt Hfit. revert st. induction cs as [|c cs IH]; intros st [bar Hbar] Hne Hdec.
  - exists st. cbn. now rewrite app_nil_r.
  - cbn [concat] in Hdec. apply Forall_app in Hdec as [Hc Hcs].
    inversion Hne as [|c' cs' Hc0 Hne']; subst c' cs'.
    destruct (loop_body_ok args predictor wdtype st bar c Hdt Hfit Hbar Hc0 Hc)
      as (st1 & E1 & S1 & _ & B1).
    destruct (IH st1 B1 Hne' Hcs) as (st' & E' & S').
    exists st'. cbn [for_each flat_map]. rewrite E1. cbn [rbind].
    split; [assumption|]. rewrite S', S1. now rewrite <- app_assoc.
Qed.

(** With a progress bar to make, the loop gets as far as its chunks
    for every batch size but zero. *)
Lemma scoring_loop_shown (args : Args) (predictor : AestheticPredictor)
      (wdtype : dtype) (files : list string) (cs : list (list string)) :
  no_progress args = false ->
  batch_size args <> 0%Z ->
  chunks files (batch_size args) = Ok cs ->
  exists q,
    int_true_div (Z.of_nat (length files)) (batch_size args) = Ok q
    /\ scoring_loop args predictor wdtype files
       = for_each (loop_body args predictor wdtype)
                  (mkLocals None [] (Some (mkTqdm (ceil q) 0 None))) cs.
Proof.
  intros Hprog Hn Ecs.
  destruct (int_true_div_ok (Z.of_nat (length files)) (batch_size args) Hn) as [q Eq].
  exists q. split; [exact Eq|].
  unfold scoring_loop. rewrite Hprog. cbn [negb]. rewrite Eq. cbn [rbind].
  rewrite Ecs. reflexivity.
Qed.

(** C2.  With the progress bar on, a positive batch size, float32
    features of the width the predictor takes and files that all
    decode, the loop ends with, for every chunk in turn, one record per
    score of the chunk, each under the name of the last file of that
    chunk; every single pass through the loop body adds just these
    records for its chunk. *)
Theorem scoring_loop_pairs_last_file (args : Args) (predictor : AestheticPredictor)
      (wdtype : dtype) (files : list string) :
  no_progress args = false ->
  (0 < batch_size args)%Z ->
  wdtype = float32 ->
  encoder_fits predictor ->
  Forall (fun f => is_Some (open_image f)) files ->
  exists cs st,
    chunks files (batch_size args) = Ok cs
    /\ Forall (fun c => c <> []) cs
    /\ concat cs = files
    /\ scoring_loop args predictor wdtype files = Ok st
    /\ scores st =
       flat_map (fun files_s =>
                   map (mkScore (List.last files_s ""))
                       (forward predictor wdtype
                          (get_image_features (omap open_image files_s)))) cs
    /\ (forall st0 bar files_s,
          progress_bar st0 = Some bar -> files_s <> [] ->
          Forall (fun f => is_Some (open_image f)) files_s ->
          exists st1,
            loop_body args predictor wdtype st0 files_s = Ok st1
            /\ scores st1 =
               scores st0
               ++ map (mkScore (List.last files_s ""))
                      (forward predictor wdtype
                         (get_image_features (omap open_image files_s)))).
Proof.
  intros Hprog Hn Hdt Hfit Hdec.
  destruct (chunks_partition files (batch_size args) Hn) as (cs & Ecs & Hne & Hcat & _).
  destruct (scoring_loop_shown args predictor wdtype files cs Hprog ltac:(lia) Ecs)
    as (q & _ & Eloop).
  destruct (for_each_loop_body args predictor wdtype cs
              (mkLocals None [] (Some (mkTqdm (ceil q) 0 None))) Hdt Hfit)
    as (st' & E' & S'); [cbn [progress_bar]; eauto | exact Hne | now rewrite Hcat |].
  exists cs, st'. rewrite Eloop.
  split; [assumption|]. split; [assumption|]. split; [assumption|].
  split; [assumption|]. split; [exact S'|].
  intros st0 bar files_s Hbar Hne0 Hdec0.
  destruct (loop_body_ok args predictor wdtype st0 bar files_s Hdt Hfit Hbar Hne0 Hdec0)
    as (st1 & E1 & S1 & _).
  exists st1. split; assumption.
Qed.

(** C10 (as amended).  With [--no_progress], a positive batch size
    and at least one file, when the files of the first chunk decode and
    their float32 features have the width the predictor takes, the loop
    stops at the end of the first chunk with the unbound name
    [progress_bar]; so does every pass through the loop body that
    starts without a progress bar. *)
Theorem no_progress_aborts (args : Args) (predictor : AestheticPredictor)
      (wdtype : dtype) (files : list string) :
  no_progress args = true ->
  (0 < batch_size args)%Z ->
  files <> [] ->
  wdtype = float32 ->
  encoder_fits predictor ->
  Forall (fun f => is_Some (open_image f))
         (firstn (Z.to_nat (batch_size args)) files) ->
  scoring_loop args predictor wdtype files = Raise (NameError "progress_bar")
  /\ (forall st files_s,
        progress_bar st = None -> files_s <> [] ->
        Forall (fun f => is_Some (open_image f)) files_s ->
        loop_body args predictor wdtype st files_s = Raise (NameError "progress_bar")).
Proof.
  intros Hprog Hn Hne Hdt Hfit Hdec. split.
  - destruct (chunks_partition files (batch_size args) Hn)
      as (cs & Ecs & Hcs & _ & Hfirst).
    destruct (Hfirst Hne) as (rest & ->).
    unfold scoring_loop. rewrite Hprog. cbn [negb rbind]. rewrite Ecs.
    cbn [rbind for_each].
    rewrite loop_body_unbound; [reflexivity | assumption | assumption | reflexivity | | assumption].
    now inversion Hcs.
  - intros st files_s. now apply loop_body_unbound.
Qed.


(** ** File discovery *)

(** The extension of [p], lowered, is one of the six. *)
Lemma is_image_path_spec (p : string) :
  is_image_path p = true <->
  exists stem ext, In ext ["jpg"; "jpeg"; "png"; "bmp"; "webp"; "avif"]
                   /\ lower p = stem +:+ "." +:+ ext.
Proof using.
  clear. unfold is_image_path, endswith_any. rewrite existsb_exists. split.
  - intros (suf & Hin & Hend). apply endswith_spec in Hend as [stem Hstem].
    exists stem. cbn [image_suffixes In] in Hin.
    repeat (destruct Hin as [<-|Hin];
            [eexists; split; [|exact Hstem]; cbn [In]; tauto|]).
    destruct Hin.
  - intros (stem & ext & Hin & Hlow).
    exists ("." +:+ ext). split.
    + cbn [In] in Hin. cbn [image_suffixes In].
      repeat (destruct Hin as [<-|Hin]; [tauto|]). destruct Hin.
    + apply endswith_spec. now exists stem.
Qed.

Lemma get_files_dir (args : Args) (file_or_dir : string)
      (file_list : list (string * entry)) :
  get_files args file_or_dir (Dir file_list) =
  flat_map (visit args (fspath file_or_dir)) file_list.
Proof.
  cbn [get_files].
  induction file_list as [|[file child] l IH]; [reflexivity|].
  cbn [flat_map]. rewrite <- IH. unfold visit. cbn [fst snd].
  destruct child; reflexivity.
Qed.

(** The file branch looks at the module-level namespace, never at its
    argument. *)
Lemma get_files_file (args : Args) (file_or_dir : string) :
  get_files args file_or_dir File =
  if is_image_path (image_file_or_dir args) then [image_file_or_dir args] else [].
Proof. reflexivity. Qed.

(** For the call [main] makes the two coincide. *)
Lemma get_files_file_main (args : Args) :
  get_files args (image_file_or_dir args) File =
  if is_image_path (image_file_or_dir args) then [image_file_or_dir args] else [].
Proof. reflexivity. Qed.

Fixpoint entry_nested_ind (P : entry -> Prop) (HF : P File)
    (HD : forall l, Forall (fun e => P (snd e)) l -> P (Dir l))
    (e : entry) {struct e} : P e :=
  match e with
  | File => HF
  | Dir l =>
      HD l ((fix all (l : list (string * entry)) : Forall (fun e => P (snd e)) l :=
               match l with
               | [] => List.Forall_nil _
               | x :: l' =>
                   @List.Forall_cons _ (fun e => P (snd e)) x l'
                     (entry_nested_ind P HF HD (snd x)) (all l')
               end) l)
  end.

(** On a directory [get_files] returns the image paths of the tree
    below it, and nothing else. *)
Lemma get_files_dir_spec (args : Args) (node : entry) :
  forall dir l p, node = Dir l ->
    In p (get_files args dir node) <-> leaf_at dir node p /\ is_image_path p = true.
Proof using fspath.
  induction node as [|l IH] using entry_nested_ind; intros dir l0 p E; [discriminate|].
  clear E l0. rewrite get_files_dir, in_flat_map. split.
  - intros ([name child] & Hin & Hp). unfold visit in Hp. cbn [fst snd] in Hp.
    destruct child as [|sub].
    + destruct (is_image_path (os_path_join (fspath dir) name)) eqn:Eimg;
        [|destruct Hp].
      destruct Hp as [<-|[]]. split; [now apply leaf_here | assumption].
    + rewrite List.Forall_forall in IH.
      apply (IH _ Hin _ sub p eq_refl) in Hp as [Hleaf Himg].
      split; [now apply (leaf_below dir l sub name) | assumption].
  - intros [Hleaf Himg]. inversion Hleaf as [? ? name Hin|? ? sub name ? Hin Hsub]; subst.
    + exists (name, File). split; [assumption|].
      unfold visit. cbn [fst snd]. rewrite Himg. now left.
    + exists (name, Dir sub). split; [assumption|].
      unfold visit. cbn [fst snd].
      rewrite List.Forall_forall in IH.
      apply (IH _ Hin _ sub p eq_refl). now split.
Qed.

(** On a directory the namespace is never looked at: the recursion
    passes directories only, so the file branch is reached from the
    call of [main] alone. *)
Lemma get_files_dir_namespace (args args' : Args) (node : entry) :
  forall dir l, node = Dir l -> get_files args' dir node = get_files args dir node.
Proof using fspath.
  induction node as [|l IH] using entry_nested_ind; intros dir l0 E; [discriminate|].
  clear E l0. rewrite !get_files_dir. rewrite List.Forall_forall in IH.
  induction l as [|[name child] l IHl]; [reflexivity|].
  cbn [flat_map]. rewrite IHl by (intros e He; apply IH; now right). f_equal.
  unfold visit. cbn [fst snd]. destruct child as [|sub]; [reflexivity|].
  apply (IH (name, Dir sub) ltac:(now left) _ sub eq_refl).
Qed.

(** C3.  [main] asks for the path of the run, [args.image_file_or_dir].
    When that is a single file the result is the path itself if it
    passes the test of the extensions, and nothing otherwise; when it
    is a directory the result holds exactly the paths of the files of
    the tree below it that pass the test, sub-directories included.
    A path passes when, lowered, it ends in a dot and one of the six
    extensions.  On a directory the result is the same whatever the
    namespace holds. *)
Theorem get_files_discovers (args : Args) :
  let path := image_file_or_dir args in
  get_files args path File = (if is_image_path path then [path] else [])
  /\ (forall l p, In p (get_files args path (Dir l)) <->
                  leaf_at path (Dir l) p /\ is_image_path p = true)
  /\ (forall p, is_image_path p = true <->
                exists stem ext, In ext ["jpg"; "jpeg"; "png"; "bmp"; "webp"; "avif"]
                                 /\ lower p = stem +:+ "." +:+ ext)
  /\ (forall l dir args', get_files args' dir (Dir l) = get_files args dir (Dir l)).
Proof using fspath.
  intros path. split; [reflexivity|].
  split; [intros l p; now apply (get_files_dir_spec args (Dir l) path l)|].
  split; [intros p; apply is_image_path_spec|].
  intros l dir args'. now apply (get_files_dir_namespace args args' (Dir l) dir l).
Qed.

(** ** Further properties: the checkpoint cache *)

Lemma dict_get_mem (d : list (string * string)) (k v : string) :
  dict_get d k = Some v -> mem k (map fst d) = true.
Proof.
  induction d as [|[k' v'] d IH]; [discriminate|].
  cbn [dict_get map fst mem existsb]. destruct (String.eqb k k'); [reflexivity|].
  intros H. rewrite orb_false_l. now apply IH.
Qed.

Lemma mem_dict_get (d : list (string * string)) (k : string) :
  mem k (map fst d) = true -> exists v, dict_get d k = Some v.
Proof.
  induction d as [|[k' v'] d IH]; [discriminate|].
  cbn [dict_get map fst mem existsb]. destruct (String.eqb k k'); [eauto|].
  rewrite orb_false_l. apply IH.
Qed.

Lemma length_app_s (a b : string) :
  String.length (a +:+ b) = (String.length a + String.length b)%nat.
Proof.
  induction a as [|c a IH]; [reflexivity|].
  rewrite app_cons_s. cbn [String.length]. now rewrite IH.
Qed.

Lemma path_parents_shorter (acc p q : string) :
  In q (path_parents acc p) ->
  (String.length q < String.length acc + String.length p)%nat.
Proof.
  revert acc. induction p as [|c p IH]; intros acc; cbn [path_parents]; [intros []|].
  intros Hin. apply in_app_or in Hin as [Hin|Hin].
  - destruct (Ascii.eqb c "/" && negb (String.eqb acc ""))%bool; [|destruct Hin].
    destruct Hin as [<-|[]]. cbn [String.length]. lia.
  - apply IH in Hin. rewrite length_app_s in Hin. cbn [String.length] in *. lia.
Qed.

Lemma known_model_no_slash (model url : string) :
  dict_get model_to_host model = Some url ->
  string_existsb (Ascii.eqb "/") (model +:+ ".pth") = false.
Proof.
  intros H. apply dict_get_mem, mem_spec in H.
  cbn in H. destruct H as [<-|[<-|[]]]; reflexivity.
Qed.

(** Joining a directory path in normal form with a name. *)
Lemma os_path_join_child (d n : string) :
  d <> "" -> endswith d "/" = false ->
  string_existsb (Ascii.eqb "/") n = false ->
  os_path_join d n = d +:+ "/" +:+ n.
Proof.
  intros Hd Hend Hn. unfold os_path_join.
  rewrite (no_slash_startswith n Hn), Hend.
  now destruct (String.eqb_spec d "").
Qed.

(** Making a directory does not make anything inside it. *)
Lemma mkdir_parents_child (d n : string) (w : world) :
  is_dir (d +:+ "/" +:+ n) (snd (mkdir_parents d w)) = is_dir (d +:+ "/" +:+ n) w.
Proof.
  unfold mkdir_parents.
  destruct (is_dir d w); [reflexivity|].
  destruct (is_file d w); [reflexivity|].
  destruct (existsb (fun a => is_file a w) (path_parents "" d)); [reflexivity|].
  cbn [snd]. unfold is_dir. cbn [fs_dirs]. apply bool_decide_ext. split.
  - intros Hin. apply elem_of_union in Hin as [Hin|Hin];
      [apply elem_of_union in Hin as [Hin|Hin]|]; [assumption| |]; exfalso.
    + apply elem_of_singleton in Hin. apply (f_equal String.length) in Hin.
      rewrite !length_app_s in Hin. cbn [String.length] in Hin. lia.
    + apply elem_of_list_to_set, list_elem_of_In, path_parents_shorter in Hin.
      rewrite !length_app_s in Hin. cbn [String.length] in Hin. lia.
  - intros Hin. apply elem_of_union. left. apply elem_of_union. now left.
Qed.

(** The cache file of a known model can be written once the cache
    directory is there. *)
Lemma cache_file_writable (model url : string) (w : world) :
  let d := user_cache_dir APP_NAME APP_AUTHOR in
  d <> "" -> endswith d "/" = false ->
  dict_get model_to_host model = Some url ->
  is_dir d w = true ->
  path_exists (os_path_join d (model +:+ ".pth")) w = false ->
  writable (os_path_join d (model +:+ ".pth")) w = true.
Proof.
  intros d Hd Hend Hurl Hdir Hnew.
  pose proof (known_model_no_slash model url Hurl) as Hslash.
  unfold writable. rewrite (os_path_join_child d _ Hd Hend Hslash) in *.
  rewrite (parent_dir_child d _ Hd Hslash), Hdir.
  unfold path_exists in Hnew. apply orb_false_elim in Hnew as [_ Hnew].
  unfold is_dir at 1. rewrite Hnew.
  rewrite <- !app_assoc_s, endswith_pth.
  destruct (String.eqb_spec (((d +:+ "/") +:+ model) +:+ ".pth") "") as [E|_];
    [|reflexivity].
  apply (f_equal String.length) in E. rewrite !length_app_s in E.
  cbn [String.length] in E. lia.
Qed.

(** The two ways [ensure_model] can go for a name that has a URL and
    no file yet, once the cache directory is there. *)
Lemma ensure_model_fetch (model url : string) (w : world) :
  let d := user_cache_dir APP_NAME APP_AUTHOR in
  d <> "" -> endswith d "/" = false ->
  can_mkdir d w = true ->
  dict_get model_to_host model = Some url ->
  path_exists (os_path_join d (model +:+ ".pth")) w = false ->
  ensure_model model w =
  let full_file := os_path_join d (model +:+ ".pth") in
  let dirs := fs_dirs (snd (mkdir_parents d w)) in
  match requests_get url with
  | Some r =>
      (Ok tt, mkWorld (<[full_file := r]> (fs_files w)) dirs (requests w ++ [url])
                      (stdout w ++ ["downloading " +:+ url; "saved to " +:+ full_file]))
  | None =>
      (Raise (HTTPError url),
       mkWorld (fs_files w) dirs (requests w ++ [url])
               (stdout w ++ ["downloading " +:+ url]))
  end.
Proof.
  intros d Hd Hend Hcan Hurl Hnew. pose proof (dict_get_mem _ _ _ Hurl) as Hmem.
  fold model_keys in Hmem.
  pose proof (known_model_no_slash model url Hurl) as Hslash.
  destruct (mkdir_parents_keeps d w) as (Hf & Hr & Ho).
  destruct (mkdir_parents_can d w Hcan) as [Emk Hdir].
  set (w1 := snd (mkdir_parents d w)) in *.
  assert (Hnew1 : path_exists (os_path_join d (model +:+ ".pth")) w1 = false).
  { unfold path_exists in *. rewrite Hf. apply orb_false_elim in Hnew as [Hnf Hnd].
    rewrite Hnf. cbn [orb]. rewrite (os_path_join_child d _ Hd Hend Hslash) in *.
    fold (is_dir (d +:+ "/" +:+ (model +:+ ".pth")) w1). subst w1.
    rewrite mkdir_parents_child. exact Hnd. }
  pose proof (cache_file_writable model url w1 Hd Hend Hurl Hdir Hnew1) as Hwr.
  rewrite ensure_model_eq. cbv zeta. fold d. rewrite Emk, Hnew1, Hmem, Hurl.
  unfold bind, print, http_get. cbn [fs_files fs_dirs requests stdout].
  rewrite Hf, Hr, Ho.
  destruct (requests_get url) as [r|]; [|reflexivity].
  rewrite write_file_ok.
  - cbn [fs_files fs_dirs requests stdout]. now rewrite <- app_assoc.
  - rewrite (writable_same_dirs _ w1) by reflexivity. exact Hwr.
Qed.

(** X1.  A known model with no file in the cache, nothing in the way
    of the cache directory and a server that answers: one GET to the
    URL of the model, the body stored under the cache path, after which
    the file and the directory exist. *)
Theorem ensure_model_downloads (model url r : string) (w : world) :
  let d := user_cache_dir APP_NAME APP_AUTHOR in
  d <> "" -> endswith d "/" = false ->
  can_mkdir d w = true ->
  dict_get model_to_host model = Some url ->
  path_exists (os_path_join d (model +:+ ".pth")) w = false ->
  requests_get url = Some r ->
  let full_file := os_path_join d (model +:+ ".pth") in
  let w' := snd (ensure_model model w) in
  fst (ensure_model model w) = Ok tt
  /\ requests w' = requests w ++ [url]
  /\ fs_files w' = <[full_file := r]> (fs_files w)
  /\ stdout w' = stdout w ++ ["downloading " +:+ url; "saved to " +:+ full_file]
  /\ path_exists full_file w' = true
  /\ is_dir d w' = true.
Proof.
  intros d Hd Hend Hcan Hurl Hnew Hget full_file w'. subst w'.
  rewrite (ensure_model_fetch model url w Hd Hend Hcan Hurl Hnew). cbv zeta. fold d.
  rewrite Hget. cbn [fst snd requests fs_files stdout].
  split; [reflexivity|]. split; [reflexivity|]. split; [reflexivity|].
  split; [reflexivity|]. split.
  - unfold path_exists. cbn [fs_files]. subst full_file.
    rewrite lookup_insert_eq. rewrite bool_decide_eq_true_2 by eauto. reflexivity.
  - apply (mkdir_parents_can d w Hcan).
Qed.

(** X2.  When the GET fails the error goes through and nothing is
    written: the cache holds the files it held. *)
Theorem ensure_model_failed_download (model url : string) (w : world) :
  let d := user_cache_dir APP_NAME APP_AUTHOR in
  d <> "" -> endswith d "/" = false ->
  can_mkdir d w = true ->
  dict_get model_to_host model = Some url ->
  path_exists (os_path_join d (model +:+ ".pth")) w = false ->
  requests_get url = None ->
  fst (ensure_model model w) = Raise (HTTPError url)
  /\ fs_files (snd (ensure_model model w)) = fs_files w
  /\ requests (snd (ensure_model model w)) = requests w ++ [url].
Proof.
  intros d Hd Hend Hcan Hurl Hnew Hget.
  rewrite (ensure_model_fetch model url w Hd Hend Hcan Hurl Hnew). cbv zeta.
  rewrite Hget. repeat split.
Qed.

(** What the download branch can end with. *)
Lemma download_outcomes (url full_file : string) (w1 : world) :
  let res := (run print ("downloading " +:+ url);
              do r <- http_get url;
              run write_file full_file r;
              print ("saved to " +:+ full_file)) w1 in
  requests (snd res) = requests w1 ++ [url]
  /\ fs_dirs (snd res) = fs_dirs w1
  /\ (fst res = Ok tt /\ is_Some (fs_files (snd res) !! full_file)
      \/ fst res = Raise (HTTPError url) /\ requests_get url = None
      \/ fst res = Raise (IsADirectoryError full_file)
      \/ fst res = Raise (NotADirectoryError full_file)
      \/ fst res = Raise (FileNotFoundError full_file)).
Proof.
  cbv zeta. unfold bind, print, http_get. cbn [fs_files fs_dirs requests stdout].
  destruct (requests_get url) as [r|];
    [|cbn [fst snd requests fs_dirs]; split; [reflexivity|]; split; [reflexivity|];
      right; left; split; reflexivity].
  match goal with
  | |- context [write_file full_file r ?w2] =>
      destruct (writable full_file w2) eqn:Ew;
        [rewrite (write_file_ok full_file r w2 Ew)
        |destruct (write_file_fails full_file r w2 Ew) as (e & -> & He)]
  end.
  - cbn [fst snd requests fs_dirs fs_files]. rewrite lookup_insert_eq.
    split; [reflexivity|]. split; [reflexivity|]. left. eauto.
  - cbn [fst snd requests fs_dirs].
    split; [reflexivity|]. split; [reflexivity|].
    destruct He as [->|[->| ->]]; auto 6.
Qed.

(** When [ensure_model] returns, the file and the directory are there. *)
Lemma ensure_model_ok_exists (model : string) (w : world) :
  fst (ensure_model model w) = Ok tt ->
  path_exists (os_path_join (user_cache_dir APP_NAME APP_AUTHOR) (model +:+ ".pth"))
              (snd (ensure_model model w)) = true
  /\ is_dir (user_cache_dir APP_NAME APP_AUTHOR) (snd (ensure_model model w)) = true.
Proof using user_cache_dir requests_get.
  set (d := user_cache_dir APP_NAME APP_AUTHOR).
  set (f := os_path_join d (model +:+ ".pth")).
  rewrite ensure_model_eq. cbv zeta. fold d. fold f.
  pose proof (mkdir_parents_ok_dir d w) as Hmk.
  destruct (mkdir_parents d w) as [[[]|e] w1]; [|discriminate].
  cbn [fst snd] in Hmk. specialize (Hmk eq_refl).
  destruct (path_exists f w1) eqn:Eex; [intros _; now split|].
  destruct (mem model model_keys); [|discriminate].
  destruct (dict_get model_to_host model) as [url|]; [|discriminate].
  destruct (download_outcomes url f w1) as (_ & Hdirs & Hout). cbv zeta in Hdirs, Hout.
  intros Hok. rewrite Hok in Hout.
  destruct Hout as [[_ Hfile]|[[H _]|[H|[H|H]]]]; try discriminate H.
  split.
  - unfold path_exists. now rewrite bool_decide_eq_true_2.
  - unfold is_dir in *. now rewrite Hdirs.
Qed.

(** X3.  [ensure_model] is idempotent: after a call that returned, a
    second call returns as well and leaves the world as it is; no
    request, no write, no output. *)
Theorem ensure_model_twice (model : string) (w : world) :
  fst (ensure_model model w) = Ok tt ->
  ensure_model model (snd (ensure_model model w))
  = (Ok tt, snd (ensure_model model w)).
Proof using user_cache_dir requests_get.
  intros Hok. destruct (ensure_model_ok_exists model w Hok) as [Hex Hdir].
  set (w1 := snd (ensure_model model w)) in *.
  rewrite ensure_model_eq. cbv zeta.
  rewrite (mkdir_parents_exists _ w1 Hdir), Hex. reflexivity.
Qed.

(** X4.  A known model is never turned down: whatever the world, the
    call does not end with the [ValueError] of an invalid model, nor
    with a [KeyError]; and when nothing is in the way of the cache
    directory it returns, or the download of that model's URL failed. *)
Theorem ensure_model_known (model : string) (w : world) :
  mem model model_keys = true ->
  let d := user_cache_dir APP_NAME APP_AUTHOR in
  (forall msg, fst (ensure_model model w) <> Raise (ValueError msg))
  /\ (forall key, fst (ensure_model model w) <> Raise (KeyError key))
  /\ (d <> "" -> endswith d "/" = false -> can_mkdir d w = true ->
      fst (ensure_model model w) = Ok tt
      \/ exists url, dict_get model_to_host model = Some url
                     /\ requests_get url = None
                     /\ fst (ensure_model model w) = Raise (HTTPError url)).
Proof.
  intros Hmem d.
  destruct (mem_dict_get _ _ Hmem) as [url Hurl].
  assert (Hnot : forall e, (forall p, e <> FileExistsError p) ->
                           (forall p, e <> NotADirectoryError p) ->
                           (forall p, e <> IsADirectoryError p) ->
                           (forall p, e <> FileNotFoundError p) ->
                           (forall u, e <> HTTPError u) ->
                           fst (ensure_model model w) <> Raise e).
  { intros e H1 H2 H3 H4 H5. rewrite ensure_model_eq. cbv zeta. fold d.
    destruct (can_mkdir d w) eqn:Ecan.
    - destruct (mkdir_parents_can d w Ecan) as [-> _].
      destruct (path_exists _ _); [discriminate|]. rewrite Hmem, Hurl.
      match goal with
      | |- context [os_path_join d ?n] =>
          destruct (download_outcomes url (os_path_join d n)
                                      (snd (mkdir_parents d w))) as (_ & _ & Hout)
      end.
      cbv zeta in Hout.
      destruct Hout as [[H _]|[[H _]|[H|[H|H]]]]; rewrite H; congruence.
    - destruct (mkdir_parents_cannot d w Ecan) as [->| ->]; cbn [fst]; congruence. }
  split; [intros msg; apply Hnot; discriminate|].
  split; [intros key; apply Hnot; discriminate|].
  intros Hd Hend Hcan.
  destruct (path_exists (os_path_join d (model +:+ ".pth")) w) eqn:Eex.
  - left. rewrite ensure_model_eq. cbv zeta. fold d.
    destruct (mkdir_parents_can d w Hcan) as [-> _].
    destruct (mkdir_parents_keeps d w) as (Hf & _ & _).
    replace (path_exists (os_path_join d (model +:+ ".pth")) (snd (mkdir_parents d w)))
      with true; [reflexivity|].
    symmetry. unfold path_exists in *. rewrite Hf.
    apply orb_true_iff in Eex as [E|E]; [now rewrite E|].
    apply orb_true_iff. right.
    pose proof (known_model_no_slash model url Hurl) as Hslash.
    rewrite (os_path_join_child d _ Hd Hend Hslash) in *.
    fold (is_dir (d +:+ "/" +:+ (model +:+ ".pth")) (snd (mkdir_parents d w))).
    now rewrite mkdir_parents_child.
  - rewrite (ensure_model_fetch model url w Hd Hend Hcan Hurl Eex). cbv zeta.
    destruct (requests_get url) as [r|] eqn:Eget; [now left|].
    right. exists url. repeat split; assumption.
Qed.

(** X5.  A first [load_model] on a cache without the file loads the
    very bytes it has just fetched, after one request. *)
Theorem load_model_fresh (model clip_model device url r : string)
      (st : state_dict) (w : world) :
  user_cache_dir APP_NAME APP_AUTHOR <> "" ->
  endswith (user_cache_dir APP_NAME APP_AUTHOR) "/" = false ->
  can_mkdir (user_cache_dir APP_NAME APP_AUTHOR) w = true ->
  dict_get model_to_host model = Some url ->
  path_exists (os_path_join (user_cache_dir APP_NAME APP_AUTHOR) (model +:+ ".pth")) w
  = false ->
  requests_get url = Some r ->
  torch_load r = Some st ->
  let d := if contains "ViT-L" clip_model then 768
           else if contains "ViT-B" clip_model then 512 else 768 in
  fst (load_model model clip_model device w) =
  (if state_matches (expected_state 0 (layers (AestheticPredictor_init d))) st
   then Ok (mkPredictor d (layers (AestheticPredictor_init d)) (Some st)
                        (Some device) false)
   else Raise (RuntimeError "Error(s) in loading state_dict for AestheticPredictor"))
  /\ requests (snd (load_model model clip_model device w)) = requests w ++ [url].
Proof.
  intros Hd Hend Hcan Hurl Hnew Hget Hload d.
  unfold load_model. unfold bind.
  rewrite (ensure_model_fetch model url w Hd Hend Hcan Hurl Hnew). cbv zeta. rewrite Hget.
  unfold read_checkpoint, lift, ret. cbn [fs_files].
  rewrite lookup_insert_eq, Hload. subst d.
  destruct (contains "ViT-L" clip_model); [|destruct (contains "ViT-B" clip_model)];
    rewrite load_state_dict_shape;
    match goal with
    | |- context [state_matches ?a ?b] => destruct (state_matches a b)
    end; split; reflexivity.
Qed.

(** ** Further properties: chunks and the scoring loop *)

(** A negative step gives an empty range. *)
Lemma chunks_negative {A} (lst : list A) (n : Z) :
  (n < 0)%Z -> chunks lst n = Ok [].
Proof.
  intros Hn. unfold chunks, py_range.
  destruct (Z.eqb_spec n 0) as [->|_]; [lia|].
  destruct (Z.ltb_spec 0 n) as [|_]; [lia|].
  replace (Z.to_nat ((0 - Z.of_nat (length lst) - n - 1) / - n)) with 0%nat;
    [reflexivity|].
  assert (((0 - Z.of_nat (length lst) - n - 1) / - n < 1)%Z); [|lia].
  apply Z.div_lt_upper_bound; lia.
Qed.

(** The number of chunks of a positive size. *)
Lemma chunks_count {A} (lst : list A) (n : Z) :
  (0 < n)%Z ->
  exists cs, chunks lst n = Ok cs
             /\ Z.of_nat (length cs) = ((Z.of_nat (length lst) + n - 1) / n)%Z.
Proof.
  intros Hn. rewrite (chunks_pos lst n Hn). eexists. split; [reflexivity|].
  rewrite length_map, length_seq.
  assert (0 <= (Z.of_nat (length lst) + n - 1) / n)%Z by (apply Z.div_pos; lia).
  lia.
Qed.

(** X6.  For a positive size, [chunks] cuts the list into
    [ceil(len / n)] consecutive pieces that give the list back: piece
    [i] starts at [i * n], has between one and [n] elements, and
    exactly [n] unless it is the last. *)
Theorem chunks_sizes {A} (lst : list A) (n : Z) :
  (0 < n)%Z ->
  exists cs,
    chunks lst n = Ok cs
    /\ concat cs = lst
    /\ Z.of_nat (length cs) = ((Z.of_nat (length lst) + n - 1) / n)%Z
    /\ (forall i c, cs !! i = Some c ->
          c = firstn (Z.to_nat n) (skipn (i * Z.to_nat n) lst)
          /\ (1 <= length c <= Z.to_nat n)%nat
          /\ (S i < length cs -> length c = Z.to_nat n)%nat).
Proof.
  intros Hn. rewrite (chunks_pos lst n Hn). eexists. split; [reflexivity|].
  set (m := Z.to_nat n).
  set (c := Z.to_nat ((Z.of_nat (length lst) + n - 1) / n)).
  assert (Hm : (0 < m)%nat) by (subst m; lia).
  assert (Hbounds : (length lst <= c * m)%nat
                    /\ (forall i, i < c -> i * m < length lst)%nat
                    /\ Z.of_nat c = ((Z.of_nat (length lst) + n - 1) / n)%Z).
  { destruct (chunk_count_bounds (Z.of_nat (length lst)) n ltac:(lia) Hn)
      as [(Hc0 & Hc1 & Hc2)|(Hl0 & Hc0)].
    - split; [subst c m; nia|]. split; [intros i Hi; subst c m; nia | subst c; lia].
    - subst c. rewrite Hc0. cbn. split; [lia|]. split; [intros i Hi; lia | lia]. }
  destruct Hbounds as (Hcm & Hlt & Hc).
  split; [now apply concat_pieces|].
  split; [now rewrite length_map, length_seq|].
  intros i piece Hi. rewrite length_map, length_seq.
  rewrite list_lookup_fmap in Hi.
  destruct (seq 0 c !! i) as [k|] eqn:Ek; [|discriminate].
  apply lookup_seq in Ek as [-> Hic]. cbn in Hi. injection Hi as <-.
  split; [reflexivity|].
  rewrite length_firstn, length_skipn.
  pose proof (Hlt i Hic) as Hi0.
  split; [lia|]. intros Hnext. pose proof (Hlt (S i) Hnext) as Hi1. lia.
Qed.

(** X7.  The other sizes: zero makes [range] raise, a negative size
    gives no chunk at all, whatever the list. *)
Theorem chunks_degenerate {A} (lst : list A) (n : Z) :
  (n = 0%Z -> chunks lst n = Raise (ValueError "range() arg 3 must not be zero"))
  /\ ((n < 0)%Z -> chunks lst n = Ok []).
Proof.
  split.
  - intros ->. unfold chunks, py_range. reflexivity.
  - intros Hn. unfold chunks.
    assert (E : py_range 0 (Z.of_nat (length lst)) n = Ok []).
    { unfold py_range.
      destruct (Z.eqb_spec n 0) as [->|_]; [lia|].
      destruct (Z.ltb_spec 0 n) as [|_]; [lia|].
      replace (Z.to_nat ((0 - Z.of_nat (length lst) - n - 1) / - n)) with 0%nat;
        [reflexivity|].
      assert (((0 - Z.of_nat (length lst) - n - 1) / - n < 1)%Z); [|lia].
      apply Z.div_lt_upper_bound; lia. }
    rewrite E. reflexivity.
Qed.

(** X8.  What a batch size that is not positive does to the loop:
    zero raises ([ZeroDivisionError] from the total of the progress
    bar, or [ValueError] from [range] with [--no_progress]); a negative
    size ends the loop at once, with no record and no error. *)
Theorem scoring_loop_degenerate_batch (args : Args) (predictor : AestheticPredictor)
      (wdtype : dtype) (files : list string) :
  (batch_size args = 0%Z ->
   scoring_loop args predictor wdtype files
   = Raise (if no_progress args
            then ValueError "range() arg 3 must not be zero"
            else ZeroDivisionError))
  /\ ((batch_size args < 0)%Z ->
      exists st, scoring_loop args predictor wdtype files = Ok st
                 /\ scores st = []
                 /\ file_var st = None).
Proof.
  split.
  - intros E. unfold scoring_loop, int_true_div. rewrite E.
    destruct (no_progress args); reflexivity.
  - intros Hn. unfold scoring_loop.
    destruct (int_true_div_ok (Z.of_nat (length files)) (batch_size args) ltac:(lia))
      as [q Eq].
    rewrite Eq, (chunks_negative files (batch_size args) Hn).
    destruct (no_progress args); cbn [negb rbind for_each]; eexists; repeat split.
Qed.

(** One pass through the loop body with the progress bar shown, in full. *)
Lemma loop_body_shown (args : Args) (predictor : AestheticPredictor) (wdtype : dtype)
      (st : locals) (bar : tqdm) (files_s : list string) :
  wdtype = float32 ->
  encoder_fits predictor ->
  no_progress args = false ->
  progress_bar st = Some bar ->
  files_s <> [] ->
  Forall (fun f => is_Some (open_image f)) files_s ->
  loop_body args predictor wdtype st files_s =
  Ok (mkLocals (Some (List.last files_s ""))
               (scores st ++ chunk_records predictor wdtype files_s)
               (Some (mkTqdm (total bar) (S (n_updates bar))
                             (Some (length (scores st
                                            ++ chunk_records predictor wdtype files_s)))))).
Proof.
  intros Hdt Hfit Hprog Hbar Hne Hdec. unfold loop_body.
  rewrite (decode_loop_ok _ _ _ Hdec). cbn [rbind fst snd app].
  rewrite (predictor_scores_ok _ _ _ Hdt Hfit). cbn [rbind].
  destruct files_s as [|f l]; [contradiction|].
  rewrite append_loop_ok. cbn [rbind]. rewrite Hbar, Hprog. reflexivity.
Qed.

Lemma for_each_loop_body_shown (args : Args) (predictor : AestheticPredictor)
      (wdtype : dtype) (cs : list (list string)) (st : locals) (bar : tqdm) :
  wdtype = float32 ->
  encoder_fits predictor ->
  no_progress args = false ->
  progress_bar st = Some bar ->
  Forall (fun c => c <> []) cs ->
  Forall (fun f => is_Some (open_image f)) (concat cs) ->
  exists st' bar',
    for_each (loop_body args predictor wdtype) st cs = Ok st'
    /\ scores st' = scores st ++ flat_map (chunk_records predictor wdtype) cs
    /\ progress_bar st' = Some bar'
    /\ total bar' = total bar
    /\ n_updates bar' = (n_updates bar + length cs)%nat
    /\ (cs <> [] -> postfix bar' = Some (length (scores st'))).
Proof.
  intros Hdt Hfit Hprog. revert st bar.
  induction cs as [|c cs IH]; intros st bar Hbar Hne Hdec.
  - exists st, bar. cbn. rewrite app_nil_r, Nat.add_0_r. repeat split; try assumption.
    intros []; reflexivity.
  - cbn [concat] in Hdec. apply Forall_app in Hdec as [Hc Hcs].
    inversion Hne as [|c' cs' Hc0 Hne']; subst c' cs'.
    pose proof (loop_body_shown args predictor wdtype st bar c Hdt Hfit Hprog Hbar Hc0 Hc)
      as E1.
    set (st1 := mkLocals _ _ _) in E1.
    destruct (IH st1 _ eq_refl Hne' Hcs) as (st' & bar' & E' & S' & B' & T' & N' & P').
    exists st', bar'. cbn [for_each flat_map]. rewrite E1. cbn [rbind].
    repeat split; try assumption.
    + rewrite S'. subst st1. cbn [scores]. now rewrite <- app_assoc.
    + rewrite N'. cbn [n_updates length]. lia.
    + intros _. destruct cs as [|c' cs'].
      * cbn in E'. injection E' as <-. cbn in B'. injection B' as <-.
        reflexivity.
      * apply P'. discriminate.
Qed.

(** X9.  With the progress bar shown, a positive batch size, fewer
    than [2 ^ 53] files and a batch size below [2 ^ 53] (so that the
    float quotient has the exact ceiling), float32 features of the
    width the predictor takes and files that decode, the bar ends
    complete: its total is the number of chunks, it has been advanced
    once per chunk, and its postfix shows the number of records. *)
Theorem progress_bar_completes (args : Args) (predictor : AestheticPredictor)
      (wdtype : dtype) (files : list string) :
  no_progress args = false ->
  (0 < batch_size args < 2 ^ 53)%Z ->
  (Z.of_nat (length files) < 2 ^ 53)%Z ->
  wdtype = float32 ->
  encoder_fits predictor ->
  Forall (fun f => is_Some (open_image f)) files ->
  exists cs st bar,
    chunks files (batch_size args) = Ok cs
    /\ scoring_loop args predictor wdtype files = Ok st
    /\ progress_bar st = Some bar
    /\ total bar = Z.of_nat (length cs)
    /\ n_updates bar = length cs
    /\ (files <> [] -> postfix bar = Some (length (scores st))).
Proof.
  intros Hprog Hn Hlen Hdt Hfit Hdec.
  destruct (chunks_count files (batch_size args) ltac:(lia)) as (cs & Ecs & Hcount).
  destruct (chunks_partition files (batch_size args) ltac:(lia))
    as (cs' & Ecs' & Hne & Hcat & _).
  rewrite Ecs in Ecs'. injection Ecs' as <-.
  destruct (ceil_true_div_exact (Z.of_nat (length files)) (batch_size args)
              ltac:(lia) Hn) as (q & Eq & Hceil).
  destruct (scoring_loop_shown args predictor wdtype files cs Hprog ltac:(lia) Ecs)
    as (q' & Eq' & Eloop).
  rewrite Eq in Eq'. injection Eq' as <-.
  destruct (for_each_loop_body_shown args predictor wdtype cs
              (mkLocals None [] (Some (mkTqdm (ceil q) 0 None)))
              _ Hdt Hfit Hprog eq_refl Hne ltac:(now rewrite Hcat))
    as (st' & bar' & E' & S' & B' & T' & N' & P').
  exists cs, st', bar'. rewrite Eloop.
  split; [assumption|]. split; [assumption|]. split; [assumption|].
  split; [|split].
  - rewrite T'. cbn [total]. lia.
  - rewrite N'. reflexivity.
  - intros Hfiles. apply P'. intros ->. cbn in Hcat. congruence.
Qed.

(** A batch size far beyond the number of files: the float quotient
    underflows to zero, and the bar is made for a total of 0 although
    one chunk is to come. *)
Lemma tqdm_total_underflow :
  rbind (int_true_div 1 (10 ^ 400)) (fun q => Ok (ceil q)) = Ok 0%Z.
Proof. vm_compute. reflexivity. Qed.

Lemma omap_decodable_length (l : list string) :
  Forall (fun f => is_Some (open_image f)) l ->
  length (omap open_image l) = length l.
Proof.
  induction 1 as [|f l [img Himg] Hl IH]; [reflexivity|].
  cbn [omap list_omap]. rewrite Himg. cbn [length]. now f_equal.
Qed.

Lemma normalized_length (a : list (list F)) : length (normalized a) = length a.
Proof. rewrite normalized_map. apply length_map. Qed.

Lemma last_in_nonempty (l : list string) : l <> [] -> In (List.last l "") l.
Proof.
  induction l as [|x l IH]; [contradiction|]. intros _.
  destruct l as [|y l]; [now left|].
  right. apply IH. discriminate.
Qed.

(** X10.  With the progress bar shown, a positive batch size, files
    that all decode and float32 features of the width the predictor
    takes: when the encoder gives one row per image and the predictor
    one score per row, the loop yields one record per file, and every
    record carries the name of one of the files. *)
Theorem scoring_loop_one_record_per_file (args : Args) (predictor : AestheticPredictor)
      (wdtype : dtype) (files : list string) :
  (forall imgs, length (encode_image imgs) = length imgs) ->
  (forall p dt rows, length (forward p dt rows) = length rows) ->
  no_progress args = false ->
  (0 < batch_size args)%Z ->
  wdtype = float32 ->
  encoder_fits predictor ->
  Forall (fun f => is_Some (open_image f)) files ->
  exists st,
    scoring_loop args predictor wdtype files = Ok st
    /\ length (scores st) = length files
    /\ Forall (fun r => In (file r) files) (scores st).
Proof.
  intros Henc Hfwd Hprog Hn Hdt Hfit Hdec.
  destruct (chunks_partition files (batch_size args) Hn) as (cs & Ecs & Hne & Hcat & _).
  destruct (scoring_loop_shown args predictor wdtype files cs Hprog ltac:(lia) Ecs)
    as (q & _ & Eloop).
  destruct (for_each_loop_body args predictor wdtype cs
              (mkLocals None [] (Some (mkTqdm (ceil q) 0 None))) Hdt Hfit)
    as (st' & E' & S'); [cbn [progress_bar]; eauto | exact Hne | now rewrite Hcat |].
  exists st'. rewrite Eloop. split; [assumption|]. rewrite S'. cbn [scores app].
  subst files. clear E' S' Ecs Eloop.
  induction Hne as [|c cs Hc Hcs IH].
  - split; [reflexivity | constructor].
  - cbn [concat] in Hdec. apply Forall_app in Hdec as [Hdc Hdcs].
    destruct (IH Hdcs) as [IHlen IHin].
    cbn [flat_map concat]. split.
    + rewrite !length_app, IHlen. f_equal.
      unfold chunk_records, get_image_features.
      rewrite length_map, Hfwd, normalized_length, Henc.
      now apply omap_decodable_length.
    + apply Forall_app. split.
      * unfold chunk_records. apply List.Forall_forall. intros r Hr.
        apply in_map_iff in Hr as (x & <- & _). cbn [file].
        apply in_or_app. left. now apply last_in_nonempty.
      * eapply Forall_impl; [exact IHin|]. intros r Hr.
        apply in_or_app. now right.
Qed.

Lemma singleton_pieces {A} (l : list A) :
  map (fun k => firstn 1 (skipn (k * 1) l)) (seq 0 (length l)) = map (fun x => [x]) l.
Proof.
  induction l as [|x l IH]; [reflexivity|].
  cbn [length seq map]. rewrite <- seq_shift, map_map. f_equal.
  rewrite <- IH. apply map_ext. intros k. reflexivity.
Qed.

(** X11.  With [--batch_size 1] (the progress bar shown, files that
    decode, float32 features of the width the predictor takes) every
    chunk is one file, so every score is recorded under the file it
    was computed from. *)
Theorem scoring_loop_batch_one (args : Args) (predictor : AestheticPredictor)
      (wdtype : dtype) (files : list string) :
  no_progress args = false ->
  batch_size args = 1%Z ->
  wdtype = float32 ->
  encoder_fits predictor ->
  Forall (fun f => is_Some (open_image f)) files ->
  exists st,
    scoring_loop args predictor wdtype files = Ok st
    /\ scores st =
       flat_map (fun f => map (mkScore f)
                              (forward predictor wdtype
                                 (get_image_features (omap open_image [f])))) files.
Proof.
  intros Hprog Hone Hdt Hfit Hdec.
  assert (Hn : (0 < batch_size args)%Z) by lia.
  assert (Ecs : chunks files (batch_size args) = Ok (map (fun f => [f]) files)).
  { rewrite (chunks_pos files _ Hn), Hone. f_equal.
    replace (Z.to_nat ((Z.of_nat (length files) + 1 - 1) / 1)) with (length files)
      by (rewrite Z.div_1_r; lia).
    apply singleton_pieces. }
  destruct (scoring_loop_shown args predictor wdtype files _ Hprog ltac:(lia) Ecs)
    as (q & _ & Eloop).
  destruct (for_each_loop_body args predictor wdtype (map (fun f => [f]) files)
              (mkLocals None [] (Some (mkTqdm (ceil q) 0 None))) Hdt Hfit)
    as (st' & E' & S').
  - cbn [progress_bar]. eauto.
  - apply List.Forall_forall. intros c Hc. apply in_map_iff in Hc as (f & <- & _).
    discriminate.
  - replace (concat (map (fun f => [f]) files)) with files; [assumption|].
    clear. induction files as [|f l IH]; [reflexivity|]. cbn. now f_equal.
  - exists st'. rewrite Eloop. split; [assumption|]. rewrite S'. cbn [scores app].
    clear. induction files as [|f l IH]; [reflexivity|].
    cbn [map flat_map]. now rewrite IH.
Qed.

Lemma decode_loop_fails (fv : option string) (images : list image)
      (good rest : list string) (bad : string) :
  Forall (fun f => is_Some (open_image f)) good ->
  open_image bad = None ->
  decode_loop fv images (good ++ bad :: rest) = Raise (OSError bad).
Proof.
  intros Hgood Hbad. revert fv images.
  induction Hgood as [|f l [img Himg] Hl IH]; intros fv images.
  - cbn. now rewrite Hbad.
  - cbn [app decode_loop]. rewrite Himg. apply IH.
Qed.

Lemma for_each_loop_body_fails (args : Args) (predictor : AestheticPredictor)
      (wdtype : dtype) (cs : list (list string)) (st : locals)
      (good rest : list string) (bad : string) :
  wdtype = float32 ->
  encoder_fits predictor ->
  is_Some (progress_bar st) ->
  Forall (fun c => c <> []) cs ->
  concat cs = good ++ bad :: rest ->
  Forall (fun f => is_Some (open_image f)) good ->
  open_image bad = None ->
  for_each (loop_body args predictor wdtype) st cs = Raise (OSError bad).
Proof.
  intros Hdt Hfit.
  revert st good. induction cs as [|c cs IH]; intros st good [bar Hbar] Hne Hcat Hgood Hbad.
  - cbn in Hcat. destruct good; discriminate.
  - inversion Hne as [|c' cs' Hc0 Hne']; subst c' cs'. cbn [concat] in Hcat.
    cbn [for_each].
    destruct (decide (length c <= length good)%nat) as [Hle|Hgt].
    + (* the chunk lies before the bad file *)
      assert (Hc : c = firstn (length c) good).
      { apply (f_equal (firstn (length c))) in Hcat.
        now rewrite take_app_length, take_app_le in Hcat by assumption. }
      assert (Hcs : concat cs = skipn (length c) good ++ bad :: rest).
      { apply (f_equal (skipn (length c))) in Hcat.
        now rewrite drop_app_length, drop_app_le in Hcat by assumption. }
      assert (Hdc : Forall (fun f => is_Some (open_image f)) c).
      { rewrite Hc. now apply Forall_take. }
      destruct (loop_body_ok args predictor wdtype st bar c Hdt Hfit Hbar Hc0 Hdc)
        as (st1 & E1 & _ & _ & B1).
      rewrite E1. cbn [rbind].
      apply (IH st1 (skipn (length c) good) B1 Hne' Hcs); [|assumption].
      now apply Forall_drop.
    + (* the bad file is in this chunk *)
      assert (Hc : exists tail, c = good ++ bad :: tail).
      { apply (f_equal (firstn (length c))) in Hcat.
        rewrite take_app_length, take_app_ge in Hcat by lia.
        destruct (length c - length good)%nat as [|k] eqn:Ek; [lia|].
        cbn [firstn] in Hcat. eauto. }
      destruct Hc as [tail ->].
      unfold loop_body. rewrite decode_loop_fails by assumption.
      reflexivity.
Qed.

(** X12.  One file that does not decode stops the whole loop (the
    progress bar shown, a positive batch size, float32 features of the
    width the predictor takes): the error names the first such file,
    and no record comes back, also for the files scored before it. *)
Theorem scoring_loop_decode_failure (args : Args) (predictor : AestheticPredictor)
      (wdtype : dtype) (good rest : list string) (bad : string) :
  no_progress args = false ->
  (0 < batch_size args)%Z ->
  wdtype = float32 ->
  encoder_fits predictor ->
  Forall (fun f => is_Some (open_image f)) good ->
  open_image bad = None ->
  scoring_loop args predictor wdtype (good ++ bad :: rest) = Raise (OSError bad).
Proof.
  intros Hprog Hn Hdt Hfit Hgood Hbad.
  destruct (chunks_partition (good ++ bad :: rest) (batch_size args) Hn)
    as (cs & Ecs & Hne & Hcat & _).
  destruct (scoring_loop_shown args predictor wdtype _ cs Hprog ltac:(lia) Ecs)
    as (q & _ & Eloop).
  rewrite Eloop.
  eapply for_each_loop_body_fails; eauto.
Qed.

(** X27.  In half precision the first chunk is as far as the loop
    gets: the features are cast to [wdtype], the weights of the
    predictor stay float32, and the first linear layer raises; with or
    without the progress bar, no record is made. *)
Theorem scoring_loop_half_precision (args : Args) (predictor : AestheticPredictor)
      (files : list string) :
  precision args = "fp16" \/ precision args = "bf16" ->
  (0 < batch_size args)%Z ->
  files <> [] ->
  Forall (fun f => is_Some (open_image f))
         (firstn (Z.to_nat (batch_size args)) files) ->
  fst (prepare_dtype args) <> float32
  /\ scoring_loop args predictor (fst (prepare_dtype args)) files
     = Raise (RuntimeError "linear: dtype or shape mismatch").
Proof.
  intros Hprec Hn Hne Hdec.
  assert (Hdt : fst (prepare_dtype args) <> float32).
  { unfold prepare_dtype. destruct Hprec as [-> | ->]; discriminate. }
  split; [exact Hdt|].
  destruct (chunks_partition files (batch_size args) Hn)
    as (cs & Ecs & Hcs & _ & Hfirst).
  destruct (Hfirst Hne) as (rest & ->).
  assert (Hbody : forall st,
            loop_body args predictor (fst (prepare_dtype args)) st
                      (firstn (Z.to_nat (batch_size args)) files)
            = Raise (RuntimeError "linear: dtype or shape mismatch")).
  { intros st. unfold loop_body. rewrite (decode_loop_ok _ _ _ Hdec).
    cbn [rbind fst snd]. now rewrite predictor_scores_half. }
  unfold scoring_loop.
  destruct (int_true_div_ok (Z.of_nat (length files)) (batch_size args) ltac:(lia))
    as [q Eq].
  rewrite Eq, Ecs.
  destruct (no_progress args); cbn [negb rbind for_each]; now rewrite Hbody.
Qed.

(** X13.  Normalisation works row by row: it keeps the number of rows
    and the length of each row, and normalising two batches one after
    the other is normalising them together. *)
Theorem normalized_rowwise (a b : list (list F)) :
  length (normalized a) = length a
  /\ (forall i row, a !! i = Some row ->
        exists out, normalized a !! i = Some out /\ length out = length row)
  /\ normalized (a ++ b) = normalized a ++ normalized b.
Proof.
  split; [apply normalized_length|]. split.
  - intros i row Hrow. rewrite normalized_map, list_lookup_fmap, Hrow.
    cbn [fmap option_fmap option_map]. eexists. split; [reflexivity|].
    apply length_map.
  - rewrite !normalized_map. apply map_app.
Qed.

(** ** Further properties: file discovery *)

(** X14.  On a directory [get_files] returns exactly the paths of the
    non-directories of the tree below it whose lowered path ends in one
    of the six suffixes: every such path, and no other. *)
Theorem get_files_directory_exact (args : Args) (dir : string)
      (l : list (string * entry)) (p : string) :
  In p (get_files args dir (Dir l)) <-> leaf_at dir (Dir l) p /\ is_image_path p = true.
Proof.
  remember (Dir l) as node eqn:E. revert dir l p E.
  induction node as [|l0 IH] using entry_nested_ind; intros dir l p E; [discriminate|].
  injection E as <-. rewrite List.Forall_forall in IH.
  rewrite get_files_dir, in_flat_map. split.
  - intros ([name child] & Hin & Hp). unfold visit in Hp. cbn [fst snd] in Hp.
    destruct child as [|sub].
    + destruct (is_image_path (os_path_join (fspath dir) name)) eqn:Eimg;
        [|destruct Hp].
      destruct Hp as [<-|[]]. split; [now apply leaf_here | assumption].
    + apply (IH _ Hin _ sub p eq_refl) in Hp as [Hleaf Himg].
      split; [now apply (leaf_below dir _ sub name) | assumption].
  - intros [Hleaf Himg].
    inversion Hleaf as [? ? name Hin|? ? sub name ? Hin Hsub]; subst.
    + exists (name, File). split; [assumption|].
      unfold visit. cbn [fst snd]. rewrite Himg. now left.
    + exists (name, Dir sub). split; [assumption|].
      unfold visit. cbn [fst snd]. apply (IH _ Hin _ sub p eq_refl). now split.
Qed.

Lemma lower_app (a b : string) : lower (a +:+ b) = lower a +:+ lower b.
Proof.
  induction a as [|c a IH]; [reflexivity|].
  rewrite app_cons_s. cbn [lower]. now rewrite IH, app_cons_s.
Qed.

Lemma string_existsb_app (f : ascii -> bool) (a b : string) :
  string_existsb f (a +:+ b) = string_existsb f a || string_existsb f b.
Proof.
  induction a as [|c a IH]; [reflexivity|].
  rewrite app_cons_s. cbn [string_existsb]. now rewrite IH, orb_assoc.
Qed.

(** A suffix without the separator lies within the last component. *)
Lemma endswith_after_sep (x n suf : string) (c : ascii) :
  string_existsb (Ascii.eqb c) suf = false ->
  endswith (x +:+ String c n) suf = endswith n suf.
Proof.
  intros Hsuf. apply Bool.eq_iff_eq_true. rewrite !endswith_spec. split.
  - intros [pre H]. revert pre H. induction x as [|a x IH]; intros pre H.
    + rewrite app_nil_l_s in H. destruct pre as [|p pre]; sapp.
      * subst suf. cbn [string_existsb] in Hsuf. now rewrite Ascii.eqb_refl in Hsuf.
      * inversion H. eauto.
    + rewrite app_cons_s in H. destruct pre as [|p pre]; sapp.
      * subst suf. cbn [string_existsb] in Hsuf.
        rewrite string_existsb_app in Hsuf. cbn [string_existsb] in Hsuf.
        rewrite Ascii.eqb_refl in Hsuf.
        rewrite orb_true_l, !orb_true_r in Hsuf. discriminate.
      * inversion H. eauto.
  - intros [pre ->]. exists (x +:+ String c pre).
    now rewrite app_assoc_s, app_cons_s.
Qed.

Lemma endswith_any_after_sep (x n : string) (sufs : list string) (c : ascii) :
  Forall (fun suf => string_existsb (Ascii.eqb c) suf = false) sufs ->
  endswith_any (x +:+ String c n) sufs = endswith_any n sufs.
Proof.
  unfold endswith_any. induction 1 as [|suf sufs Hsuf Hsufs IH]; [reflexivity|].
  cbn [existsb]. now rewrite (endswith_after_sep x n suf c Hsuf), IH.
Qed.

(** X15.  Whether a file counts as an image depends on its own name
    only, never on the directory it is joined to: a file [jpg] in a
    directory [x.] is no image. *)
Theorem is_image_path_by_name (dir name : string) :
  string_existsb (Ascii.eqb "/") name = false ->
  is_image_path (os_path_join dir name) = is_image_path name.
Proof.
  intros Hname. unfold os_path_join. rewrite (no_slash_startswith name Hname).
  assert (Hsep : forall x, is_image_path (x +:+ String "/" name) = is_image_path name).
  { intros x. unfold is_image_path. rewrite lower_app. cbn [lower].
    change (lower_ascii "/") with "/"%char.
    apply endswith_any_after_sep. repeat constructor. }
  destruct (String.eqb_spec dir "") as [->|Hdir]; cbn [orb].
  - reflexivity.
  - destruct (endswith dir "/") eqn:Eend.
    + apply endswith_spec in Eend as [pre ->].
      rewrite app_assoc_s. apply Hsep.
    + apply Hsep.
Qed.

(** ** Further properties: the report and whole runs *)


Lemma is_dir_not_writable (p : string) (w : world) :
  is_dir p w = true -> writable p w = false.
Proof. intros H. unfold writable. rewrite H. now rewrite orb_true_r. Qed.

(** X17.  The report sends no request and creates no directory; it
    keeps every line printed before; the one file it may touch is the
    CSV, only with [--save_csv] and a record; it returns whenever that
    file can be opened or is not asked for; and when the path given for
    it is a directory, [open] raises after the scores have been
    printed: no notice, no average, no file. *)
Theorem report_effects (args : Args) (l : list ScoreRecord) (w : world) :
  let w' := snd (report args l w) in
  requests w' = requests w
  /\ fs_dirs w' = fs_dirs w
  /\ (exists out, stdout w' = stdout w ++ out)
  /\ (forall p, p <> csv_name args -> fs_files w' !! p = fs_files w !! p)
  /\ (save_csv args = false \/ l = [] \/ writable (csv_name args) w = true ->
      fst (report args l w) = Ok tt)
  /\ (save_csv args = false \/ l = [] -> fs_files w' = fs_files w)
  /\ (save_csv args = true -> l <> [] -> is_dir (csv_name args) w = true ->
      fst (report args l w) = Raise (IsADirectoryError (csv_name args))
      /\ fs_files w' = fs_files w
      /\ stdout w' = stdout w ++ (if (length l <? 300)%nat
                                  then map score_line (sorted_desc score l) else [])).
Proof.
  destruct l as [|r l].
  - rewrite report_nil. cbn.
    split; [reflexivity|]. split; [reflexivity|]. split; [eauto|].
    split; [reflexivity|]. split; [reflexivity|]. split; [reflexivity|].
    intros _ H. now destruct H.
  - destruct (save_csv args) eqn:Esave; [destruct (writable (csv_name args) w) eqn:Ew|].
    + rewrite (report_cons args (r :: l) w ltac:(discriminate) ltac:(auto)). cbv zeta.
      rewrite Esave. cbn [fst snd requests fs_dirs stdout fs_files].
      split; [reflexivity|]. split; [reflexivity|].
      split; [rewrite <- app_assoc; eauto|].
      split; [intros p Hp; now rewrite lookup_insert_ne|].
      split; [reflexivity|].
      split; [intros [H|H]; discriminate H|].
      intros _ _ H. apply is_dir_not_writable in H. congruence.
    + destruct (report_csv_fails args (r :: l) w ltac:(discriminate) Esave Ew)
        as (e & E & He).
      rewrite E. cbn [fst snd requests fs_dirs stdout fs_files].
      split; [reflexivity|]. split; [reflexivity|]. split; [eauto|].
      split; [reflexivity|].
      split; [intros [H|[H|H]]; discriminate H|].
      split; [reflexivity|].
      intros _ _ Hdir. rewrite (He Hdir). split; [reflexivity|]. split; reflexivity.
    + rewrite (report_cons args (r :: l) w ltac:(discriminate)) by congruence. cbv zeta.
      rewrite Esave. cbn [fst snd requests fs_dirs stdout fs_files].
      split; [reflexivity|]. split; [reflexivity|].
      split; [rewrite <- app_assoc; eauto|].
      split; [reflexivity|]. split; [reflexivity|]. split; [reflexivity|].
      intros H. discriminate H.
Qed.

(** The requests [ensure_model] sends. *)
Lemma ensure_model_requests (model : string) (w : world) :
  requests (snd (ensure_model model w)) = requests w
  \/ exists url, dict_get model_to_host model = Some url
                 /\ requests (snd (ensure_model model w)) = requests w ++ [url].
Proof.
  rewrite ensure_model_eq. cbv zeta.
  destruct (mkdir_parents_keeps (user_cache_dir APP_NAME APP_AUTHOR) w) as (_ & Hr & _).
  destruct (mkdir_parents _ w) as [[[]|e] w1]; cbn [snd] in Hr; [|now left].
  destruct (path_exists _ w1); [now left|].
  destruct (mem model model_keys); [|now left].
  destruct (dict_get model_to_host model) as [url|]; [|now left].
  right. exists url. split; [reflexivity|].
  match goal with
  | |- context [os_path_join ?d ?n] =>
      destruct (download_outcomes url (os_path_join d n) w1) as (Hreq & _)
  end.
  cbv zeta in Hreq. now rewrite Hreq, Hr.
Qed.

Lemma load_model_requests (model clip_model device : string) (w : world) :
  requests (snd (load_model model clip_model device w))
  = requests (snd (ensure_model model w)).
Proof.
  unfold load_model. unfold bind. destruct (ensure_model model w) as [[[]|e] w1];
    [|reflexivity].
  unfold read_checkpoint. cbn [snd].
  destruct (fs_files w1 !! _) as [bytes|]; [|reflexivity].
  destruct (torch_load bytes) as [st|]; [|reflexivity].
  unfold lift, ret.
  destruct (load_state_dict _ st); reflexivity.
Qed.

(** [main] stage by stage. *)
Lemma main_stages (args : Args) (tree : entry) (w : world) :
  main args tree w =
  match get_device args with
  | Raise e => (Raise e, w)
  | Ok dev =>
      let w0 := mkWorld (fs_files w) (fs_dirs w) (requests w)
                        (stdout w ++ ["Loading " +:+ model args]) in
      match load_model (model args) (clip_model args) dev w0 with
      | (Raise e, w1) => (Raise e, w1)
      | (Ok predictor, w1) =>
          let w2 := mkWorld (fs_files w1) (fs_dirs w1) (requests w1)
                            (stdout w1 ++ ["Loading CLIP " +:+ clip_model args]) in
          match clip_load (clip_model args) dev with
          | None => (Raise (RuntimeError "clip.load"), w2)
          | Some _ =>
              let files := get_files args (image_file_or_dir args) tree in
              let w3 := mkWorld (fs_files w1) (fs_dirs w1) (requests w1)
                          ((stdout w1 ++ ["Loading CLIP " +:+ clip_model args])
                           ++ ["Files to score: " +:+ pretty (length files)]) in
              match scoring_loop args predictor (fst (prepare_dtype args)) files with
              | Raise e => (Raise e, w3)
              | Ok st => report args (scores st) w3
              end
          end
      end
  end.
Proof.
  unfold main, bind, lift, print. cbv beta iota zeta.
  destruct (get_device args) as [dev|e]; [|reflexivity].
  destruct (load_model _ _ _ _) as [[predictor|e] w1]; [|reflexivity].
  cbn [fs_files fs_dirs requests stdout].
  destruct (clip_load (clip_model args) dev); [|reflexivity].
  destruct (scoring_loop _ _ _ _) as [st|e]; reflexivity.
Qed.

(** X18.  A whole run calls [requests.get] at most once, and only
    with the URL registered for the model it was asked for.  (What
    [clip.load] fetches on its own is not part of the world here.) *)
Theorem main_requests (args : Args) (tree : entry) (w : world) :
  requests (snd (main args tree w)) = requests w
  \/ exists url, dict_get model_to_host (model args) = Some url
                 /\ requests (snd (main args tree w)) = requests w ++ [url].
Proof.
  rewrite main_stages.
  destruct (get_device args) as [dev|e]; [|now left]. cbv zeta.
  set (w0 := mkWorld _ _ _ (stdout w ++ _)).
  assert (H : requests (snd (ensure_model (model args) w0)) = requests w
              \/ exists url, dict_get model_to_host (model args) = Some url
                             /\ requests (snd (ensure_model (model args) w0))
                                = requests w ++ [url])
    by apply (ensure_model_requests (model args) w0).
  rewrite <- (load_model_requests (model args) (clip_model args) dev w0) in H.
  destruct (load_model _ _ _ _) as [[predictor|e] w1]; [|exact H].
  cbn [snd] in H.
  destruct (clip_load (clip_model args) dev); [|exact H].
  destruct (scoring_loop _ _ _ _) as [st|e]; [|exact H].
  match goal with
  | |- context [report args (scores st) ?w3] =>
      destruct (report_keeps args (scores st) w3) as (Hreq & _)
  end.
  rewrite Hreq. exact H.
Qed.



(** X20.  With [--no_progress] and the default precision a run that
    has an image to score never gets to its report: it stops on the
    unbound name after the line "Files to score", prints no score and
    no average, and writes no CSV. *)
Theorem main_no_progress (args : Args) (tree : entry) (w w1 : world)
      (dev : string) (p : AestheticPredictor) :
  get_device args = Ok dev ->
  load_model (model args) (clip_model args) dev
             (snd (print ("Loading " +:+ model args) w)) = (Ok p, w1) ->
  clip_load (clip_model args) dev = Some tt ->
  no_progress args = true ->
  precision args <> "fp16" ->
  precision args <> "bf16" ->
  encoder_fits p ->
  (0 < batch_size args)%Z ->
  get_files args (image_file_or_dir args) tree <> [] ->
  Forall (fun f => is_Some (open_image f))
         (firstn (Z.to_nat (batch_size args))
                 (get_files args (image_file_or_dir args) tree)) ->
  main args tree w =
  (Raise (NameError "progress_bar"),
   mkWorld (fs_files w1) (fs_dirs w1) (requests w1)
           (stdout w1
            ++ ["Loading CLIP " +:+ clip_model args;
                "Files to score: "
                +:+ pretty (length (get_files args (image_file_or_dir args) tree))])).
Proof.
  intros Hdev Hload Hclip Hprog Hfp Hbf Hfit Hn Hfiles Hdec.
  set (files := get_files args (image_file_or_dir args) tree) in *.
  assert (Hdt : fst (prepare_dtype args) = float32).
  { unfold prepare_dtype.
    destruct (String.eqb_spec (precision args) "fp16"); [contradiction|].
    destruct (String.eqb_spec (precision args) "bf16"); [contradiction|].
    reflexivity. }
  assert (Hloop : scoring_loop args p (fst (prepare_dtype args)) files
                  = Raise (NameError "progress_bar")).
  { destruct (chunks_partition files (batch_size args) Hn)
      as (cs & Ecs & Hcs & _ & Hfirst).
    destruct (Hfirst Hfiles) as (rest & ->).
    unfold scoring_loop. rewrite Hprog. cbn [negb rbind]. rewrite Ecs.
    cbn [rbind for_each].
    rewrite loop_body_unbound;
      [reflexivity | assumption | assumption | reflexivity | | assumption].
    now inversion Hcs. }
  rewrite main_stages, Hdev. cbv zeta. unfold print in Hload. cbn [snd] in Hload.
  rewrite Hload, Hclip. fold files. rewrite Hloop.
  now rewrite <- app_assoc.
Qed.

(** X21.  A run that finds no image ends with "no scores": after
    "Files to score: 0" it prints that one line, no average, and
    writes no CSV even with [--save_csv]. *)
Theorem main_no_files (args : Args) (tree : entry) (w w1 : world)
      (dev : string) (p : AestheticPredictor) :
  get_device args = Ok dev ->
  load_model (model args) (clip_model args) dev
             (snd (print ("Loading " +:+ model args) w)) = (Ok p, w1) ->
  clip_load (clip_model args) dev = Some tt ->
  (0 < batch_size args)%Z ->
  get_files args (image_file_or_dir args) tree = [] ->
  main args tree w =
  (Ok tt,
   mkWorld (fs_files w1) (fs_dirs w1) (requests w1)
           (stdout w1
            ++ ["Loading CLIP " +:+ clip_model args;
                "Files to score: 0";
                "no scores. Did you put the correct directory/image in?"])).
Proof.
  intros Hdev Hload Hclip Hn Hfiles.
  assert (Hloop : exists st, scoring_loop args p (fst (prepare_dtype args)) []
                             = Ok st /\ scores st = []).
  { unfold scoring_loop.
    destruct (int_true_div_ok (Z.of_nat (length ([] : list string))) (batch_size args)
                ltac:(lia)) as [q Eq].
    rewrite Eq.
    assert (Ecs : chunks ([] : list string) (batch_size args) = Ok []).
    { rewrite (chunks_pos _ _ Hn). cbn [length].
      replace ((Z.of_nat 0 + batch_size args - 1) / batch_size args)%Z with 0%Z;
        [reflexivity|].
      symmetry. apply Z.div_small. lia. }
    rewrite Ecs. destruct (no_progress args); cbn; eexists; split; reflexivity. }
  destruct Hloop as (st & Eloop & Escores).
  rewrite main_stages, Hdev. cbv zeta. unfold print in Hload. cbn [snd] in Hload.
  rewrite Hload, Hclip, Hfiles, Eloop, Escores, report_nil.
  cbn [fs_files fs_dirs requests stdout length]. now rewrite <- !app_assoc.
Qed.

(** ** Further properties: clearing the cache *)

Lemma strip_prefix_spec (pre s t : string) :
  strip_prefix pre s = Some t <-> s = pre +:+ t.
Proof.
  revert s. induction pre as [|a pre IH]; intros s; cbn [strip_prefix].
  - rewrite app_nil_l_s. split; congruence.
  - rewrite app_cons_s. destruct s as [|b s]; [split; discriminate|].
    destruct (Ascii.eqb_spec a b) as [->|Hab].
    + rewrite IH. split; [now intros -> | now inversion 1].
    + split; [discriminate | inversion 1; congruence].
Qed.

Lemma child_name_spec (d p n : string) :
  child_name d p = Some n <->
  p = d +:+ "/" +:+ n /\ n <> "" /\ string_existsb (Ascii.eqb "/") n = false.
Proof.
  unfold child_name. destruct (strip_prefix (d +:+ "/") p) as [m|] eqn:E.
  - apply strip_prefix_spec in E. rewrite app_assoc_s in E.
    destruct (String.eqb_spec m "") as [->|Hm]; cbn [orb].
    + split; [discriminate|]. intros (Hp & Hn & _). subst p.
      apply String.app_inj, String.app_inj in Hp. congruence.
    + destruct (string_existsb (Ascii.eqb "/") m) eqn:Es.
      * split; [discriminate|]. intros (Hp & _ & Hs). subst p.
        apply String.app_inj, String.app_inj in Hp. congruence.
      * split.
        -- intros [= <-]. auto.
        -- intros (Hp & _ & _). subst p.
           apply String.app_inj, String.app_inj in Hp. congruence.
  - split; [discriminate|]. intros (Hp & _ & _). exfalso.
    assert (strip_prefix (d +:+ "/") p = Some n) as E'
        by (apply strip_prefix_spec; now rewrite app_assoc_s).
    congruence.
Qed.

(** The paths [clear_cache] hands to [os.remove] are the listed paths
    that lie directly in the directory. *)
Lemma listed_paths (d : string) (els : list string) :
  d <> "" -> endswith d "/" = false ->
  map (os_path_join d) (omap (child_name d) els)
  = List.filter (fun p => bool_decide (is_Some (child_name d p))) els.
Proof.
  intros Hd Hend. induction els as [|p els IH]; [reflexivity|].
  cbn [omap list_omap List.filter].
  destruct (child_name d p) as [n|] eqn:E.
  - rewrite bool_decide_eq_true_2 by eauto. cbn [map]. rewrite IH. f_equal.
    apply child_name_spec in E as (-> & _ & Hn). now apply os_path_join_child.
  - rewrite bool_decide_eq_false_2 by (intros [? ?]; discriminate). exact IH.
Qed.

Lemma for_each_io_map {A B} (f : A -> B) (body : B -> IO unit) (l : list A) :
  for_each_io (fun x => body (f x)) l = for_each_io body (map f l).
Proof.
  induction l as [|x l IH]; [reflexivity|]. cbn [for_each_io map]. now rewrite IH.
Qed.

(** Removing distinct files that are all there. *)
Lemma remove_all (paths : list string) (w : world) :
  NoDup paths ->
  Forall (fun p => is_Some (fs_files w !! p)) paths ->
  exists files',
    for_each_io os_remove paths w
    = (Ok tt, mkWorld files' (fs_dirs w) (requests w) (stdout w))
    /\ forall p, files' !! p = if bool_decide (p ∈ paths) then None
                              else fs_files w !! p.
Proof.
  intros Hnd. revert w. induction Hnd as [|q paths Hq Hnd IH]; intros w Hall.
  - exists (fs_files w). split; [cbn; unfold ret; now destruct w|].
    intros p. rewrite bool_decide_eq_false_2; [reflexivity | apply not_elem_of_nil].
  - inversion Hall as [|? ? [v Hv] Hrest]; subst.
    cbn [for_each_io]. unfold bind, os_remove at 1. rewrite Hv.
    destruct (IH (mkWorld (delete q (fs_files w)) (fs_dirs w) (requests w) (stdout w)))
      as (files' & E & Hlook).
    + cbn [fs_files]. apply List.Forall_forall. intros p Hp.
      rewrite lookup_delete_ne.
      * rewrite List.Forall_forall in Hrest. now apply Hrest.
      * intros ->. apply Hq. now apply list_elem_of_In.
    + exists files'. split; [exact E|]. intros p. rewrite Hlook. cbn [fs_files].
      destruct (decide (p = q)) as [->|Hpq].
      * rewrite (bool_decide_eq_true_2 (q ∈ q :: paths)) by apply list_elem_of_here.
        rewrite lookup_delete_eq. now destruct (bool_decide (q ∈ paths)).
      * rewrite lookup_delete_ne by congruence.
        destruct (decide (p ∈ paths)) as [Hin|Hout].
        -- rewrite !bool_decide_eq_true_2; [reflexivity | | assumption].
           now apply list_elem_of_further.
        -- rewrite !bool_decide_eq_false_2; [reflexivity | | assumption].
           intros Hin. apply elem_of_cons in Hin as [?|?]; contradiction.
Qed.

(** What [clear_cache] leaves of the files when every entry of the
    cache directory is a regular file. *)
Lemma clear_cache_files (w : world) :
  let d := user_cache_dir APP_NAME APP_AUTHOR in
  d <> "" -> endswith d "/" = false ->
  d ∈ fs_dirs w ->
  (forall p, p ∈ fs_dirs w -> child_name d p = None) ->
  exists files',
    clear_cache w = (Ok tt, mkWorld files' (fs_dirs w) (requests w) (stdout w))
    /\ forall p, files' !! p = match child_name d p with
                               | Some _ => None
                               | None => fs_files w !! p
                               end.
Proof.
  intros d Hd Hend Hdir Hnosub. unfold clear_cache. fold d.
  unfold bind, os_listdir. rewrite bool_decide_eq_true_2 by assumption.
  rewrite for_each_io_map, listed_paths by assumption.
  set (els := elements (dom (fs_files w) ∪ fs_dirs w)).
  destruct (remove_all
              (List.filter (fun p => bool_decide (is_Some (child_name d p))) els) w)
    as (files' & E & Hlook).
  - apply NoDup_ListNoDup, List.NoDup_filter, NoDup_ListNoDup, NoDup_elements.
  - apply List.Forall_forall. intros p Hp. apply filter_In in Hp as [Hp Hc].
    apply bool_decide_eq_true_1 in Hc. subst els.
    apply list_elem_of_In, elem_of_elements, elem_of_union in Hp as [Hp|Hp].
    + now apply elem_of_dom.
    + rewrite (Hnosub p Hp) in Hc. now destruct Hc.
  - exists files'. split; [exact E|]. intros p. rewrite Hlook.
    destruct (child_name d p) as [n|] eqn:Ec.
    + destruct (decide (p ∈ List.filter
                              (fun p => bool_decide (is_Some (child_name d p))) els))
        as [Hin|Hout].
      * now rewrite bool_decide_eq_true_2.
      * rewrite bool_decide_eq_false_2 by assumption.
        destruct (fs_files w !! p) as [v|] eqn:Ev; [|reflexivity].
        exfalso. apply Hout. apply list_elem_of_In, filter_In. split.
        -- subst els. apply list_elem_of_In, elem_of_elements, elem_of_union. left.
           apply elem_of_dom. eauto.
        -- apply bool_decide_eq_true_2. rewrite Ec. eauto.
    + rewrite bool_decide_eq_false_2; [reflexivity|].
      intros Hin. apply list_elem_of_In, filter_In in Hin as [_ Hc].
      apply bool_decide_eq_true_1 in Hc. rewrite Ec in Hc. now destruct Hc.
Qed.

(** X22.  When the cache directory exists and holds no directory of
    its own, [clear_cache] removes every file that lies directly in it
    and nothing else: files elsewhere, directories, the network and the
    output are as before. *)
Theorem clear_cache_removes (w : world) :
  let d := user_cache_dir APP_NAME APP_AUTHOR in
  d <> "" -> endswith d "/" = false ->
  d ∈ fs_dirs w ->
  (forall p, p ∈ fs_dirs w -> child_name d p = None) ->
  exists files',
    clear_cache w = (Ok tt, mkWorld files' (fs_dirs w) (requests w) (stdout w))
    /\ forall p, files' !! p = match child_name d p with
                               | Some _ => None
                               | None => fs_files w !! p
                               end.
Proof.
  intros d Hd Hend Hdir Hnosub.
  destruct (clear_cache_files w Hd Hend Hdir Hnosub) as (files' & E & Hlook).
  exists files'. split; [exact E|]. intros p. apply Hlook.
Qed.

(** Removing distinct paths one of which is no regular file. *)
Lemma remove_all_fails (paths : list string) (w : world) (q : string) :
  NoDup paths ->
  q ∈ paths -> fs_files w !! q = None ->
  exists q', q' ∈ paths /\ fs_files w !! q' = None
             /\ fst (for_each_io os_remove paths w) = Raise (OSError q').
Proof.
  intros Hnd. revert w. induction Hnd as [|p paths Hp Hnd IH]; intros w Hq Hnone.
  - now apply elem_of_nil in Hq.
  - cbn [for_each_io]. unfold bind, os_remove at 1.
    destruct (fs_files w !! p) as [v|] eqn:Ev.
    + assert (Hqp : q <> p) by congruence.
      apply elem_of_cons in Hq as [?|Hq]; [contradiction|].
      destruct (IH (mkWorld (delete p (fs_files w)) (fs_dirs w) (requests w) (stdout w))
                   Hq) as (q' & Hin & Hnone' & E).
      * cbn [fs_files]. now rewrite lookup_delete_ne.
      * exists q'. split; [now apply list_elem_of_further|]. split; [|exact E].
        cbn [fs_files] in Hnone'. rewrite lookup_delete_ne in Hnone'; [assumption|].
        intros ->. contradiction.
    + exists p. split; [apply list_elem_of_here|]. split; [assumption | reflexivity].
Qed.

(** X23.  A directory inside the cache directory makes [clear_cache]
    fail: [os.remove] raises on the first listed entry that is no
    regular file. *)
Theorem clear_cache_subdirectory (w : world) (sub n : string) :
  let d := user_cache_dir APP_NAME APP_AUTHOR in
  d <> "" -> endswith d "/" = false ->
  d ∈ fs_dirs w ->
  sub ∈ fs_dirs w -> child_name d sub = Some n -> fs_files w !! sub = None ->
  exists q, fst (clear_cache w) = Raise (OSError q)
            /\ is_Some (child_name d q)
            /\ fs_files w !! q = None.
Proof.
  intros d Hd Hend Hdir Hsub Hchild Hnone. unfold clear_cache. fold d.
  unfold bind, os_listdir. rewrite bool_decide_eq_true_2 by assumption.
  rewrite for_each_io_map, listed_paths by assumption.
  set (els := elements (dom (fs_files w) ∪ fs_dirs w)).
  destruct (remove_all_fails
              (List.filter (fun p => bool_decide (is_Some (child_name d p))) els)
              w sub) as (q & Hin & Hq & E).
  - apply NoDup_ListNoDup, List.NoDup_filter, NoDup_ListNoDup, NoDup_elements.
  - apply list_elem_of_In, filter_In. split.
    + subst els. apply list_elem_of_In, elem_of_elements, elem_of_union. now right.
    + apply bool_decide_eq_true_2. rewrite Hchild. eauto.
  - assumption.
  - exists q.
    destruct (for_each_io os_remove _ w) as [res w'] eqn:Erun. cbn [fst] in *.
    subst res. split; [reflexivity|]. split; [|assumption].
    apply list_elem_of_In, filter_In in Hin as [_ Hc].
    now apply bool_decide_eq_true_1 in Hc.
Qed.

(** X24.  Before the cache directory has ever been made there is
    nothing to list: [clear_cache] raises and changes nothing. *)
Theorem clear_cache_no_directory (w : world) :
  user_cache_dir APP_NAME APP_AUTHOR ∉ fs_dirs w ->
  clear_cache w = (Raise (OSError (user_cache_dir APP_NAME APP_AUTHOR)), w).
Proof.
  intros Hdir. unfold clear_cache, bind, os_listdir.
  now rewrite bool_decide_eq_false_2.
Qed.


(** ** Further properties: the metadata dump *)

Lemma for_each_io_print (l : list string) (w : world) :
  for_each_io print l w =
  (Ok tt, mkWorld (fs_files w) (fs_dirs w) (requests w) (stdout w ++ l)).
Proof.
  revert w. induction l as [|x l IH]; intros w.
  - cbn. unfold ret. rewrite app_nil_r. now destruct w.
  - cbn [for_each_io]. unfold bind, print at 1. rewrite IH.
    cbn [fs_files fs_dirs requests stdout]. now rewrite <- app_assoc.
Qed.

End AeScore.

(** X26.  The metadata dump prints the metadata and then every tensor
    name, with [--keys] and without it: the option is a flag, and a
    flag is never [None].  Nothing else in the world changes. *)
Theorem read_metadata_lists_keys
      (safe_open : string -> option ReadMetadata.safetensors)
      (json_dumps : option (list (string * string)) -> string)
      (path : string) (keys_given : bool) (file : ReadMetadata.safetensors)
      (w : world) :
  safe_open path = Some file ->
  ReadMetadata.main safe_open json_dumps (ReadMetadata.parse_args path keys_given) w
  = (Ok tt, mkWorld (fs_files w) (fs_dirs w) (requests w)
                    (stdout w ++ json_dumps (ReadMetadata.metadata file)
                                 :: ReadMetadata.file_keys file)).
Proof.
  intros Hopen. unfold ReadMetadata.main, ReadMetadata.parse_args.
  cbn [ReadMetadata.path ReadMetadata.keys ReadMetadata.store_true
       ReadMetadata.is_not_None].
  rewrite Hopen. unfold bind, print at 1. rewrite for_each_io_print.
  cbn [fs_files fs_dirs requests stdout]. now rewrite <- app_assoc.
Qed.

(** ** The script in the sample environment *)

(** *** The rational sample satisfies what the theorems assume *)

Lemma sample_lt_asym (a b : Q) : Sample.lt a b = true -> Sample.lt b a = false.
Proof.
  unfold Sample.lt. intros H. apply negb_true_iff in H. apply negb_false_iff.
  apply Qle_bool_iff. apply Qlt_le_weak, Qnot_le_lt.
  intros Hle. apply Qle_bool_iff in Hle. congruence.
Qed.

Lemma sample_lt_negtrans (a b c : Q) :
  Sample.lt a b = false -> Sample.lt b c = false -> Sample.lt a c = false.
Proof.
  unfold Sample.lt. rewrite !negb_false_iff, !Qle_bool_iff.
  intros H1 H2. now apply (Qle_trans _ b).
Qed.

Lemma sample_eq_not_lt (a b v : Q) :
  Qeq_bool a v = true -> Qeq_bool b v = true -> Sample.lt a b = false.
Proof.
  unfold Sample.lt. rewrite !Qeq_bool_iff, negb_false_iff, Qle_bool_iff.
  intros Ha Hb. rewrite Ha, Hb. apply Qle_refl.
Qed.

Lemma sample_div_one (x : Q) : Qdiv x 1 = x.
Proof.
  destruct x as [n d]. unfold Qdiv, Qmult, Qinv. cbn [Qnum Qden].
  now rewrite Z.mul_1_r, Pos.mul_1_r.
Qed.



Lemma sample_xdiv_one (x : Sample.xq) : Sample.xdiv x (Sample.Fin 1) = x.
Proof.
  destruct x as [a|s|]; cbn; [|now destruct s|reflexivity].
  now rewrite sample_div_one.
Qed.

Lemma sample_xadd_finite (x y : Sample.xq) :
  Sample.xfinite (Sample.xadd (Sample.xsquare x) y) = true ->
  Sample.xfinite x = true /\ Sample.xfinite y = true.
Proof.
  destruct x as [a|s|], y as [b|t|]; cbn; try (split; congruence).
  destruct t; cbn; split; congruence.
Qed.

Lemma sample_sumsq_finite (r : list Sample.xq) :
  Sample.xfinite (fold_right (fun x acc => Sample.xadd (Sample.xsquare x) acc)
                             (Sample.Fin 0) r) = true ->
  forallb Sample.xfinite r = true.
Proof.
  induction r as [|x r IH]; [reflexivity|]. cbn [fold_right forallb].
  intros H. apply sample_xadd_finite in H as [Hx Hr]. rewrite Hx. now apply IH.
Qed.

(** A zero norm leaves no room for NaN or an infinity among the entries. *)
Lemma sample_xnorm_zero_finite (r : list Sample.xq) :
  Sample.xeqb (Sample.xnorm r) (Sample.Fin 0) = true ->
  forallb Sample.xfinite r = true.
Proof.
  unfold Sample.xnorm. intros H. apply sample_sumsq_finite.
  destruct (fold_right _ _ r) as [a|s|]; [reflexivity | |discriminate H].
  destruct s; discriminate H.
Qed.

(** The sample encoder gives rows of the width of the 768-input
    predictor, one per image; the sample predictor one score per row. *)
Lemma sample_encoder_fits (p : AestheticPredictor) :
  input_size p = 768%nat -> encoder_fits Q string Sample.encode_image p.
Proof.
  intros Hp images. rewrite Hp. apply List.Forall_forall. intros row Hrow.
  apply in_map_iff in Hrow as (f & <- & _). reflexivity.
Qed.

(** *** Runs *)



Local Abbreviation q_load_model :=
  (load_model Sample.cache_dir Sample.requests_get Sample.torch_load).
Local Abbreviation x_normalized :=
  (normalized Sample.xq (Sample.Fin 0) (Sample.Fin 1) Sample.xdiv Sample.xeqb
              Sample.xnorm).
Local Abbreviation q_scoring_loop :=
  (scoring_loop Q 0%Q 1%Q Qdiv Qeq_bool Sample.norm string Sample.open_image
                Sample.encode_image Sample.forward).
Local Abbreviation q_sorted := (sorted_desc Q Sample.lt (score Q)).
Local Abbreviation q_report :=
  (report Q 0%Q Qplus Qdiv Sample.lt Sample.of_nat Sample.repr 1700000000%Z).
Local Abbreviation q_main :=
  (main Q 0%Q 1%Q Qplus Qdiv Qeq_bool Sample.lt Sample.of_nat Sample.repr
        Sample.norm Sample.cache_dir Sample.requests_get Sample.torch_load
        Sample.torch_device false Sample.fspath string Sample.open_image
        Sample.clip_load Sample.encode_image Sample.forward 1700000000%Z).
Local Abbreviation rec := (mkScore Q).

(** With the default checkpoint in the cache, "ViT-L/14" loads the
    768-wide predictor. *)
Lemma load_model_input_size_witness :
  exists p, fst (q_load_model MODEL "ViT-L/14" "cpu"
                   (Sample.cached "sac+logos+ava1-l14-linearMSE.pth" "weights"))
            = Ok p
            /\ input_size p = 768%nat.
Proof.
  destruct (load_model_input_size Sample.cache_dir Sample.requests_get Sample.torch_load
              MODEL "ViT-L/14" "cpu" "weights" Sample.checkpoint
              (Sample.cached "sac+logos+ava1-l14-linearMSE.pth" "weights"))
    as (d & HL & _ & _ & _ & Hres).
  - vm_compute. reflexivity.
  - vm_compute. reflexivity.
  - reflexivity.
  - assert (d = 768%nat) as -> by (apply HL; exists "", "/14"; reflexivity).
    eexists. split; [exact Hres | reflexivity].
Defined.

(** [--device cpu] and no [--device] at all resolve alike. *)
Lemma get_device_ignores_configured_witness :
  get_device Sample.torch_device false
    (mkArgs "photos" MODEL CLIP_MODEL (Some "cuda:0") 5 false false false None "float")
  = Ok "cpu"
  /\ get_device Sample.torch_device false
       (mkArgs "photos" MODEL CLIP_MODEL (Some "cuda:0") 5 false false false None "float")
     = get_device Sample.torch_device false Sample.args.
Proof.
  apply (get_device_ignores_configured Sample.torch_device false
           (mkArgs "photos" MODEL CLIP_MODEL (Some "cuda:0") 5 false false false None "float")
           Sample.args); discriminate.
Defined.

(** The zero row of a batch comes back as it went in, in the
    arithmetic with NaN and infinities. *)
Lemma normalized_zero_norm_witness :
  exists out, x_normalized [[Sample.Fin 3; Sample.Fin 4]; [Sample.Fin 0; Sample.Fin 0]]
                !! 1%nat = Some out
              /\ out = [Sample.Fin 0; Sample.Fin 0]
              /\ forallb Sample.xfinite out = true.
Proof.
  apply (normalized_zero_norm Sample.xq (Sample.Fin 0) (Sample.Fin 1) Sample.xdiv
           Sample.xeqb Sample.xfinite Sample.xnorm
           [[Sample.Fin 3; Sample.Fin 4]; [Sample.Fin 0; Sample.Fin 0]] 1%nat
           [Sample.Fin 0; Sample.Fin 0]).
  - exact sample_xdiv_one.
  - exact sample_xnorm_zero_finite.
  - reflexivity.
  - reflexivity.
Defined.

(** Dividing the zero row by its own norm would give NaN. *)
Lemma unguarded_division_nan :
  map (fun x => Sample.xdiv x (Sample.xnorm [Sample.Fin 0; Sample.Fin 0]))
      [Sample.Fin 0; Sample.Fin 0]
  = [Sample.NaN; Sample.NaN].
Proof. reflexivity. Qed.

(** A row of non-zero norm is scaled. *)
Lemma normalized_scales_nonzero :
  x_normalized [[Sample.Fin 3; Sample.Fin 4]]
  = [[Sample.Fin (3 / 5); Sample.Fin (4 / 5)]].
Proof. reflexivity. Qed.

(** Three records, two of them tied. *)
Lemma sorted_desc_stable_descending_witness :
  q_sorted [rec "a.png" 1; rec "b.png" 3; rec "c.png" 1]%Q
  = [rec "b.png" 3; rec "a.png" 1; rec "c.png" 1]%Q
  /\ Permutation (q_sorted [rec "a.png" 1; rec "b.png" 3; rec "c.png" 1]%Q)
                 [rec "a.png" 1; rec "b.png" 3; rec "c.png" 1]%Q
  /\ descending Q Sample.lt (score Q)
       (q_sorted [rec "a.png" 1; rec "b.png" 3; rec "c.png" 1]%Q).
Proof.
  destruct (sorted_desc_stable_descending Q Qeq_bool Sample.lt
              [rec "a.png" 1; rec "b.png" 3; rec "c.png" 1]%Q
              sample_lt_asym sample_lt_negtrans sample_eq_not_lt)
    as (Hperm & Hdesc & _).
  split; [reflexivity | split; assumption].
Defined.

(** A sequence that is already descending is left alone. *)
Lemma sorted_desc_descending_input_fixed :
  q_sorted [rec "b.png" 3; rec "a.png" 1; rec "c.png" 1]%Q
  = [rec "b.png" 3; rec "a.png" 1; rec "c.png" 1]%Q.
Proof. reflexivity. Qed.

(** Three files in batches of two: the score computed from [a.png]
    is recorded under [bb.png], the last file of its chunk. *)
Lemma scoring_loop_pairs_last_file_witness :
  exists st,
    q_scoring_loop
      (mkArgs "photos" MODEL CLIP_MODEL None 2 false false false None "float")
      (AestheticPredictor_init 768) float32 ["a.png"; "bb.png"; "c.png"]
    = Ok st
    /\ scores Q st = [rec "bb.png" (1 # 5); rec "bb.png" (1 # 6); rec "c.png" (1 # 5)].
Proof.
  destruct (scoring_loop_pairs_last_file Q 0%Q 1%Q Qdiv Qeq_bool Sample.norm string
              Sample.open_image Sample.encode_image Sample.forward
              (mkArgs "photos" MODEL CLIP_MODEL None 2 false false false None "float")
              (AestheticPredictor_init 768) float32 ["a.png"; "bb.png"; "c.png"])
    as (cs & st & Ecs & _ & _ & Eloop & Escores & _).
  - reflexivity.
  - reflexivity.
  - reflexivity.
  - now apply sample_encoder_fits.
  - repeat constructor; eexists; reflexivity.
  - exists st. split; [exact Eloop|].
    vm_compute in Ecs. injection Ecs as <-. rewrite Escores. vm_compute. reflexivity.
Defined.

(** One file with [--no_progress]: the loop stops on the unbound name. *)
Lemma no_progress_aborts_witness :
  q_scoring_loop
    (mkArgs "photos" MODEL CLIP_MODEL None 5 true false false None "float")
    (AestheticPredictor_init 768) float32 ["a.png"]
  = Raise (NameError "progress_bar").
Proof.
  apply (no_progress_aborts Q 0%Q 1%Q Qdiv Qeq_bool Sample.norm string
           Sample.open_image Sample.encode_image Sample.forward
           (mkArgs "photos" MODEL CLIP_MODEL None 5 true false false None "float")
           (AestheticPredictor_init 768) float32 ["a.png"]).
  - reflexivity.
  - reflexivity.
  - discriminate.
  - reflexivity.
  - now apply sample_encoder_fits.
  - repeat constructor; eexists; reflexivity.
Defined.

(** With [--no_progress --batch_size -1] the range of the chunks is
    empty: the loop body never runs and nothing is raised. *)
Lemma no_progress_negative_batch_counterexample :
  no_progress (mkArgs "photos" MODEL CLIP_MODEL None (-1) true false false None "float")
  = true
  /\ ["a.png"] <> ([] : list string)
  /\ q_scoring_loop
       (mkArgs "photos" MODEL CLIP_MODEL None (-1) true false false None "float")
       (AestheticPredictor_init 768) float32 ["a.png"]
     = Ok (mkLocals Q None [] None).
Proof. split; [reflexivity|]. split; [discriminate | reflexivity]. Qed.


(** Two records saved to [out.csv]: header and two rows, in the order
    of the records although the sort puts [b.png] first. *)
Lemma save_csv_original_order_witness :
  fs_files (snd (q_report
                   (mkArgs "photos" MODEL CLIP_MODEL None 5 false false true
                           (Some "out.csv") "float")
                   [rec "a.png" 1; rec "b.png" 3]%Q Sample.empty_world))
  = {[ "out.csv" := "file,score" +:+ crlf +:+ "a.png,1/1" +:+ crlf
                     +:+ "b.png,3/1" +:+ crlf ]}
  /\ line_feeds ("file,score" +:+ crlf +:+ "a.png,1/1" +:+ crlf
                  +:+ "b.png,3/1" +:+ crlf) = 3%nat
  /\ q_sorted [rec "a.png" 1; rec "b.png" 3]%Q = [rec "b.png" 3; rec "a.png" 1]%Q.
Proof.
  destruct (save_csv_original_order Q 0%Q Qplus Qdiv Sample.lt Sample.of_nat
              Sample.repr 1700000000%Z
              (mkArgs "photos" MODEL CLIP_MODEL None 5 false false true
                      (Some "out.csv") "float")
              [rec "a.png" 1; rec "b.png" 3]%Q Sample.empty_world)
    as (_ & Hfs & _ & _ & _ & _ & Hlines).
  - reflexivity.
  - discriminate.
  - reflexivity.
  - split; [rewrite Hfs; reflexivity|].
    split; [|reflexivity].
    apply Hlines; [repeat constructor | reflexivity].
Defined.

(** A file whose name holds a line feed: its row is quoted and spans
    two lines, so two records give a text of four lines. *)
Lemma save_csv_line_break_counterexample :
  let args := mkArgs "photos" MODEL CLIP_MODEL None 5 false false true
                     (Some "out.csv") "float" in
  let l := [rec ("a" +:+ String "010" "b.png") 1; rec "c.png" 3]%Q in
  save_csv args = true
  /\ length l = 2%nat
  /\ fst (q_report args l Sample.empty_world) = Ok tt
  /\ exists text,
       fs_files (snd (q_report args l Sample.empty_world)) !! "out.csv" = Some text
       /\ line_feeds text = 4%nat.
Proof.
  cbv zeta. split; [reflexivity|]. split; [reflexivity|]. split; [reflexivity|].
  eexists. split; [vm_compute; reflexivity | vm_compute; reflexivity].
Qed.

(** With the prefix of [--store_full_path] the rows hold the joined
    paths; a path that is absolute drops the prefix. *)
Lemma save_csv_full_path_sample :
  fs_files (snd (q_report
                   (mkArgs "photos" MODEL CLIP_MODEL None 5 false true true
                           (Some "out.csv") "float")
                   [rec "photos/a.png" 1; rec "/srv/b.png" 3]%Q Sample.empty_world))
  = {[ "out.csv" := "file,score" +:+ crlf +:+ "photos/photos/a.png,1/1" +:+ crlf
                     +:+ "/srv/b.png,3/1" +:+ crlf ]}.
Proof. reflexivity. Qed.

(** A CSV path inside a directory that is not there: the scores are
    printed, then [open] raises; no average, no file. *)
Lemma report_missing_directory_sample :
  q_report (mkArgs "photos" MODEL CLIP_MODEL None 5 false false true
                   (Some "nodir/out.csv") "float")
           [rec "a.png" 1; rec "b.png" 3]%Q Sample.empty_world
  = (Raise (FileNotFoundError "nodir/out.csv"),
     mkWorld ∅ ∅ [] ["b.png 3/1"; "a.png 1/1"]).
Proof. reflexivity. Qed.

(** The path of the run a single image; a single text file; a
    directory with a sub-directory. *)
Lemma get_files_discovers_witness :
  get_files Sample.fspath
    (mkArgs "photo.PNG" MODEL CLIP_MODEL None 5 false false false None "float")
    "photo.PNG" File = ["photo.PNG"]
  /\ get_files Sample.fspath
       (mkArgs "notes.txt" MODEL CLIP_MODEL None 5 false false false None "float")
       "notes.txt" File = []
  /\ In "photos/sub/b.webp"
        (get_files Sample.fspath Sample.args "photos"
           (Dir [("a.JPG", File); ("sub", Dir [("b.webp", File); ("c.gif", File)])])).
Proof.
  split; [|split].
  - apply (get_files_discovers Sample.fspath
             (mkArgs "photo.PNG" MODEL CLIP_MODEL None 5 false false false None "float")).
  - apply (get_files_discovers Sample.fspath
             (mkArgs "notes.txt" MODEL CLIP_MODEL None 5 false false false None "float")).
  - apply (get_files_discovers Sample.fspath Sample.args).
    split; [|reflexivity].
    apply (leaf_below Sample.fspath "photos" _ [("b.webp", File); ("c.gif", File)]
                      "sub" "photos/sub/b.webp").
    + right. now left.
    + apply (leaf_here Sample.fspath "photos/sub" _ "b.webp"). now left.
Defined.

(** The file branch reads the namespace of the run, not its argument:
    asked about another file than the one of the run it would answer
    for the one of the run.  No call of the script does so. *)
Lemma get_files_file_branch_reads_namespace :
  get_files Sample.fspath
    (mkArgs "notes.txt" MODEL CLIP_MODEL None 5 false false false None "float")
    "photo.png" File = []
  /\ get_files Sample.fspath
       (mkArgs "photo.png" MODEL CLIP_MODEL None 5 false false false None "float")
       "notes.txt" File = ["photo.png"].
Proof. split; reflexivity. Qed.

(** The directory branch on a small tree: images at both levels, in
    listing order, whatever the case of the extension. *)
Lemma get_files_sample_tree :
  get_files Sample.fspath Sample.args "photos"
    (Dir [("a.JPG", File); ("notes.txt", File);
          ("sub", Dir [("b.webp", File); ("c.gif", File)]);
          ("d.png", File)])
  = ["photos/a.JPG"; "photos/sub/b.webp"; "photos/d.png"].
Proof. reflexivity. Qed.

(** *** Whole runs *)

(** Three images and a text file, batches of two, an empty cache: the
    checkpoint is fetched once, three files are scored, and the two
    scores of the first batch are both reported under its last file. *)
Lemma main_sample_run :
  let r := q_main (mkArgs "photos" MODEL CLIP_MODEL None 2 false false false None "float")
                  (Dir [("a.JPG", File); ("notes.txt", File);
                        ("sub", Dir [("bb.webp", File)]); ("d.png", File)])
                  Sample.empty_world in
  fst r = Ok tt
  /\ stdout (snd r)
     = ["Loading sac+logos+ava1-l14-linearMSE";
        "downloading https://github.com/christophschuhmann/improved-aesthetic-predictor/blob/main/sac+logos+ava1-l14-linearMSE.pth?raw=true";
        "saved to /home/user/.cache/ae-score/sac+logos+ava1-l14-linearMSE.pth";
        "Loading CLIP ViT-L/14";
        "Files to score: 3";
        "photos/sub/bb.webp 1/12";
        "photos/d.png 1/12";
        "photos/sub/bb.webp 1/18";
        "average score: 2/27"]
  /\ length (requests (snd r)) = 1%nat.
Proof. vm_compute. repeat split. Qed.

(** The same run with [--no_progress] stops in the first batch. *)
Lemma main_sample_run_no_progress :
  fst (q_main (mkArgs "photos" MODEL CLIP_MODEL None 2 true false false None "float")
              (Dir [("a.JPG", File); ("notes.txt", File);
                    ("sub", Dir [("bb.webp", File)]); ("d.png", File)])
              Sample.empty_world)
  = Raise (NameError "progress_bar").
Proof. vm_compute. reflexivity. Qed.

(** An empty directory: nothing to score, no average. *)
Lemma main_sample_run_empty :
  let r := q_main Sample.args (Dir []) Sample.empty_world in
  fst r = Ok tt
  /\ last (stdout (snd r))
     = Some "no scores. Did you put the correct directory/image in?".
Proof. vm_compute. repeat split. Qed.

(** *** Runs for the further properties *)

Local Abbreviation q_ensure_model := (ensure_model Sample.cache_dir Sample.requests_get).
Local Abbreviation q_clear_cache := (clear_cache Sample.cache_dir).
Local Abbreviation default_url :=
  "https://github.com/christophschuhmann/improved-aesthetic-predictor/blob/main/sac+logos+ava1-l14-linearMSE.pth?raw=true".
Local Abbreviation default_file :=
  "/home/user/.cache/ae-score/sac+logos+ava1-l14-linearMSE.pth".

(** The default model on an empty cache. *)
Lemma ensure_model_downloads_witness :
  fst (q_ensure_model MODEL Sample.empty_world) = Ok tt
  /\ requests (snd (q_ensure_model MODEL Sample.empty_world)) = [default_url]
  /\ fs_files (snd (q_ensure_model MODEL Sample.empty_world))
     = {[ default_file := "content of " +:+ default_url ]}.
Proof.
  destruct (ensure_model_downloads Sample.cache_dir Sample.requests_get MODEL
              default_url ("content of " +:+ default_url) Sample.empty_world)
    as (H1 & H2 & H3 & _).
  - discriminate.
  - reflexivity.
  - vm_compute. reflexivity.
  - reflexivity.
  - vm_compute. reflexivity.
  - reflexivity.
  - split; [exact H1|]. split; [exact H2|]. rewrite H3. reflexivity.
Defined.

(** The same with a server that does not answer. *)
Lemma ensure_model_failed_download_witness :
  fst (ensure_model Sample.cache_dir (fun _ => None) MODEL Sample.empty_world)
  = Raise (HTTPError default_url)
  /\ fs_files (snd (ensure_model Sample.cache_dir (fun _ => None) MODEL
                                 Sample.empty_world)) = ∅.
Proof.
  destruct (ensure_model_failed_download Sample.cache_dir (fun _ => None) MODEL
              default_url Sample.empty_world) as (H1 & H2 & _).
  - discriminate.
  - reflexivity.
  - vm_compute. reflexivity.
  - reflexivity.
  - vm_compute. reflexivity.
  - reflexivity.
  - split; assumption.
Defined.

Lemma ensure_model_twice_witness :
  q_ensure_model MODEL (snd (q_ensure_model MODEL Sample.empty_world))
  = (Ok tt, snd (q_ensure_model MODEL Sample.empty_world)).
Proof.
  apply (ensure_model_twice Sample.cache_dir Sample.requests_get MODEL
           Sample.empty_world).
  reflexivity.
Defined.

(** A known name, also where a regular file sits at the path of the
    cache directory: the error is that of [mkdir], not a rejection. *)
Lemma ensure_model_known_witness :
  (forall msg,
     fst (q_ensure_model "chadscorer"
            (mkWorld {[ "/home/user/.cache/ae-score" := "not a directory" ]}
                     ∅ [] []))
     <> Raise (ValueError msg))
  /\ fst (q_ensure_model "chadscorer"
            (mkWorld {[ "/home/user/.cache/ae-score" := "not a directory" ]}
                     ∅ [] []))
     = Raise (FileExistsError "/home/user/.cache/ae-score")
  /\ fst (q_ensure_model "chadscorer" Sample.empty_world) = Ok tt.
Proof.
  split; [|split].
  - apply (ensure_model_known Sample.cache_dir Sample.requests_get "chadscorer"
             (mkWorld {[ "/home/user/.cache/ae-score" := "not a directory" ]}
                      ∅ [] [])).
    reflexivity.
  - vm_compute. reflexivity.
  - destruct (ensure_model_known Sample.cache_dir Sample.requests_get "chadscorer"
                Sample.empty_world eq_refl) as (_ & _ & H).
    destruct H as [H|(url & _ & Hget & _)];
      [discriminate | reflexivity | vm_compute; reflexivity | exact H | discriminate Hget].
Defined.

(** The cache path taken by a regular file, and a regular file where
    the home directory should be. *)
Lemma ensure_model_blocked_witness :
  q_ensure_model MODEL
    (mkWorld {[ "/home/user/.cache/ae-score" := "not a directory" ]} ∅ [] [])
  = (Raise (FileExistsError "/home/user/.cache/ae-score"),
     mkWorld {[ "/home/user/.cache/ae-score" := "not a directory" ]} ∅ [] [])
  /\ fst (q_ensure_model "nosuchmodel" (mkWorld {[ "/home/user" := "a file" ]} ∅ [] []))
     = Raise (NotADirectoryError "/home/user/.cache/ae-score").
Proof.
  split.
  - destruct (ensure_model_blocked Sample.cache_dir Sample.requests_get MODEL
                (mkWorld {[ "/home/user/.cache/ae-score" := "not a directory" ]}
                         ∅ [] [])) as [E|E];
      [vm_compute; reflexivity | exact E |].
    exfalso. vm_compute in E. discriminate E.
  - destruct (ensure_model_blocked Sample.cache_dir Sample.requests_get "nosuchmodel"
                (mkWorld {[ "/home/user" := "a file" ]} ∅ [] [])) as [E|E];
      [vm_compute; reflexivity | | now rewrite E].
    exfalso. vm_compute in E. discriminate E.
Defined.

Lemma load_model_fresh_witness :
  (exists p, fst (q_load_model MODEL "ViT-L/14" "cpu" Sample.empty_world) = Ok p
             /\ input_size p = 768%nat
             /\ training p = false)
  /\ requests (snd (q_load_model MODEL "ViT-L/14" "cpu" Sample.empty_world))
     = [default_url].
Proof.
  destruct (load_model_fresh Sample.cache_dir Sample.requests_get Sample.torch_load
              MODEL "ViT-L/14" "cpu" default_url ("content of " +:+ default_url)
              Sample.checkpoint Sample.empty_world) as (H1 & H2).
  - discriminate.
  - reflexivity.
  - vm_compute. reflexivity.
  - reflexivity.
  - vm_compute. reflexivity.
  - reflexivity.
  - reflexivity.
  - split; [|exact H2]. eexists. split; [exact H1|]. split; reflexivity.
Defined.

(** Seven items by three. *)
Lemma chunks_sizes_witness :
  chunks [1; 2; 3; 4; 5; 6; 7]%nat 3 = Ok [[1; 2; 3]; [4; 5; 6]; [7]]%nat.
Proof.
  destruct (chunks_sizes [1; 2; 3; 4; 5; 6; 7]%nat 3) as (cs & E & _).
  - reflexivity.
  - rewrite E. vm_compute in E. injection E as <-. reflexivity.
Defined.

Lemma chunks_degenerate_witness :
  chunks ["a.png"; "b.png"] 0 = Raise (ValueError "range() arg 3 must not be zero")
  /\ chunks ["a.png"; "b.png"] (-2) = Ok [].
Proof.
  split.
  - apply (proj1 (chunks_degenerate ["a.png"; "b.png"] 0)). reflexivity.
  - apply (proj2 (chunks_degenerate ["a.png"; "b.png"] (-2))). reflexivity.
Defined.

Lemma scoring_loop_degenerate_batch_witness :
  q_scoring_loop (mkArgs "photos" MODEL CLIP_MODEL None 0 false false false None "float")
                 (AestheticPredictor_init 768) float32 ["a.png"]
  = Raise ZeroDivisionError
  /\ exists st,
       q_scoring_loop
         (mkArgs "photos" MODEL CLIP_MODEL None (-3) false false false None "float")
         (AestheticPredictor_init 768) float32 ["a.png"] = Ok st
       /\ scores Q st = [].
Proof.
  split.
  - apply (proj1 (scoring_loop_degenerate_batch Q 0%Q 1%Q Qdiv Qeq_bool Sample.norm
                    string Sample.open_image Sample.encode_image Sample.forward
                    (mkArgs "photos" MODEL CLIP_MODEL None 0 false false false None
                            "float")
                    (AestheticPredictor_init 768) float32 ["a.png"])).
    reflexivity.
  - destruct (proj2 (scoring_loop_degenerate_batch Q 0%Q 1%Q Qdiv Qeq_bool Sample.norm
                       string Sample.open_image Sample.encode_image Sample.forward
                       (mkArgs "photos" MODEL CLIP_MODEL None (-3) false false false
                               None "float")
                       (AestheticPredictor_init 768) float32 ["a.png"]))
      as (st & E & S & _).
    + reflexivity.
    + exists st. split; assumption.
Defined.

(** Three files by two: two chunks, the bar at two of two, three records. *)
Lemma progress_bar_completes_witness :
  exists st,
    q_scoring_loop
      (mkArgs "photos" MODEL CLIP_MODEL None 2 false false false None "float")
      (AestheticPredictor_init 768) float32 ["a.png"; "bb.png"; "c.png"] = Ok st
    /\ progress_bar Q st = Some (mkTqdm 2 2 (Some 3%nat)).
Proof.
  destruct (progress_bar_completes Q 0%Q 1%Q Qdiv Qeq_bool Sample.norm string
              Sample.open_image Sample.encode_image Sample.forward
              (mkArgs "photos" MODEL CLIP_MODEL None 2 false false false None "float")
              (AestheticPredictor_init 768) float32 ["a.png"; "bb.png"; "c.png"])
    as (cs & st & bar & _ & E & B & _).
  - reflexivity.
  - split; reflexivity.
  - reflexivity.
  - reflexivity.
  - now apply sample_encoder_fits.
  - repeat constructor; eexists; reflexivity.
  - exists st. split; [exact E|].
    vm_compute in E. injection E as <-. reflexivity.
Defined.

Lemma scoring_loop_one_record_per_file_witness :
  exists st,
    q_scoring_loop
      (mkArgs "photos" MODEL CLIP_MODEL None 2 false false false None "float")
      (AestheticPredictor_init 768) float32 ["a.png"; "bb.png"; "c.png"] = Ok st
    /\ length (scores Q st) = 3%nat.
Proof.
  destruct (scoring_loop_one_record_per_file Q 0%Q 1%Q Qdiv Qeq_bool Sample.norm string
              Sample.open_image Sample.encode_image Sample.forward
              (mkArgs "photos" MODEL CLIP_MODEL None 2 false false false None "float")
              (AestheticPredictor_init 768) float32 ["a.png"; "bb.png"; "c.png"])
    as (st & E & L & _).
  - intros imgs. apply length_map.
  - intros p dt rows. apply length_map.
  - reflexivity.
  - reflexivity.
  - reflexivity.
  - now apply sample_encoder_fits.
  - repeat constructor; eexists; reflexivity.
  - exists st. split; assumption.
Defined.

(** One by one, each score stays with its file. *)
Lemma scoring_loop_batch_one_witness :
  exists st,
    q_scoring_loop
      (mkArgs "photos" MODEL CLIP_MODEL None 1 false false false None "float")
      (AestheticPredictor_init 768) float32 ["a.png"; "bb.png"; "c.png"] = Ok st
    /\ scores Q st = [rec "a.png" (1 # 5); rec "bb.png" (1 # 6); rec "c.png" (1 # 5)].
Proof.
  destruct (scoring_loop_batch_one Q 0%Q 1%Q Qdiv Qeq_bool Sample.norm string
              Sample.open_image Sample.encode_image Sample.forward
              (mkArgs "photos" MODEL CLIP_MODEL None 1 false false false None "float")
              (AestheticPredictor_init 768) float32 ["a.png"; "bb.png"; "c.png"])
    as (st & E & S).
  - reflexivity.
  - reflexivity.
  - reflexivity.
  - now apply sample_encoder_fits.
  - repeat constructor; eexists; reflexivity.
  - exists st. split; [exact E|]. rewrite S. vm_compute. reflexivity.
Defined.

(** The third of four files is broken. *)
Lemma scoring_loop_decode_failure_witness :
  scoring_loop Q 0%Q 1%Q Qdiv Qeq_bool Sample.norm string
    (fun f => if String.eqb f "broken.png" then None else Some f)
    Sample.encode_image Sample.forward
    (mkArgs "photos" MODEL CLIP_MODEL None 2 false false false None "float")
    (AestheticPredictor_init 768) float32 ["a.png"; "b.png"; "broken.png"; "d.png"]
  = Raise (OSError "broken.png").
Proof.
  apply (scoring_loop_decode_failure Q 0%Q 1%Q Qdiv Qeq_bool Sample.norm string
           (fun f => if String.eqb f "broken.png" then None else Some f)
           Sample.encode_image Sample.forward
           (mkArgs "photos" MODEL CLIP_MODEL None 2 false false false None "float")
           (AestheticPredictor_init 768) float32 ["a.png"; "b.png"] ["d.png"]
           "broken.png").
  - reflexivity.
  - reflexivity.
  - reflexivity.
  - now apply sample_encoder_fits.
  - repeat constructor; eexists; reflexivity.
  - reflexivity.
Defined.

(** One image with [--precision fp16]: the first call of the predictor
    raises. *)
Lemma scoring_loop_half_precision_witness :
  q_scoring_loop
    (mkArgs "photos" MODEL CLIP_MODEL None 5 false false false None "fp16")
    (AestheticPredictor_init 768) float16 ["a.png"]
  = Raise (RuntimeError "linear: dtype or shape mismatch").
Proof.
  apply (scoring_loop_half_precision Q 0%Q 1%Q Qdiv Qeq_bool Sample.norm string
           Sample.open_image Sample.encode_image Sample.forward
           (mkArgs "photos" MODEL CLIP_MODEL None 5 false false false None "fp16")
           (AestheticPredictor_init 768) ["a.png"]).
  - now left.
  - reflexivity.
  - discriminate.
  - repeat constructor; eexists; reflexivity.
Defined.

Lemma normalized_rowwise_witness :
  length (x_normalized [[Sample.Fin 3; Sample.Fin 4]; [Sample.Fin 0; Sample.Fin 0]])
  = 2%nat
  /\ (exists out,
        x_normalized [[Sample.Fin 3; Sample.Fin 4]; [Sample.Fin 0; Sample.Fin 0]]
          !! 0%nat = Some out
        /\ length out = 2%nat)
  /\ x_normalized ([[Sample.Fin 3; Sample.Fin 4]] ++ [[Sample.Fin 0; Sample.Fin 0]])
     = x_normalized [[Sample.Fin 3; Sample.Fin 4]]
       ++ x_normalized [[Sample.Fin 0; Sample.Fin 0]].
Proof.
  destruct (normalized_rowwise Sample.xq (Sample.Fin 0) (Sample.Fin 1) Sample.xdiv
              Sample.xeqb Sample.xnorm
              [[Sample.Fin 3; Sample.Fin 4]; [Sample.Fin 0; Sample.Fin 0]] [])
    as (H1 & H2 & _).
  split; [exact H1|]. split; [apply (H2 0%nat [Sample.Fin 3; Sample.Fin 4]); reflexivity|].
  apply (normalized_rowwise Sample.xq (Sample.Fin 0) (Sample.Fin 1) Sample.xdiv
           Sample.xeqb Sample.xnorm
           [[Sample.Fin 3; Sample.Fin 4]] [[Sample.Fin 0; Sample.Fin 0]]).
Defined.

(** A file in a sub-directory is found under its joined path. *)
Lemma get_files_directory_exact_witness :
  In "photos/sub/b.webp"
     (get_files Sample.fspath Sample.args "photos"
        (Dir [("a.JPG", File); ("sub", Dir [("b.webp", File); ("c.gif", File)])])).
Proof.
  apply (get_files_directory_exact Sample.fspath Sample.args "photos"
           [("a.JPG", File); ("sub", Dir [("b.webp", File); ("c.gif", File)])]
           "photos/sub/b.webp").
  split; [|reflexivity].
  apply (leaf_below Sample.fspath "photos" _ [("b.webp", File); ("c.gif", File)]
                    "sub" "photos/sub/b.webp").
  - right. now left.
  - apply (leaf_here Sample.fspath "photos/sub" _ "b.webp"). now left.
Defined.

(** The directory [x.] does not turn the file [jpg] into an image. *)
Lemma is_image_path_by_name_witness :
  is_image_path (os_path_join "x." "jpg") = false
  /\ is_image_path (os_path_join "x." "a.JPG") = true.
Proof.
  split.
  - rewrite (is_image_path_by_name "x." "jpg"); reflexivity.
  - rewrite (is_image_path_by_name "x." "a.JPG"); reflexivity.
Defined.


(** A CSV asked for at the path of a directory: the report raises
    after the scores, and no file is written. *)
Lemma report_effects_witness :
  let args := mkArgs "photos" MODEL CLIP_MODEL None 5 false false true
                     (Some "/home") "float" in
  let w := mkWorld ∅ Sample.dirs [] [] in
  fst (q_report args [rec "a.png" 1; rec "b.png" 3]%Q w)
  = Raise (IsADirectoryError "/home")
  /\ requests (snd (q_report args [rec "a.png" 1; rec "b.png" 3]%Q w)) = []
  /\ fs_files (snd (q_report args [rec "a.png" 1; rec "b.png" 3]%Q w)) = ∅
  /\ stdout (snd (q_report args [rec "a.png" 1; rec "b.png" 3]%Q w))
     = ["b.png 3/1"; "a.png 1/1"].
Proof.
  intros args w.
  destruct (report_effects Q 0%Q Qplus Qdiv Sample.lt Sample.of_nat Sample.repr
              1700000000%Z args [rec "a.png" 1; rec "b.png" 3]%Q w)
    as (H1 & _ & _ & _ & _ & _ & H7).
  destruct H7 as (He & Hf & Ho);
    [reflexivity | discriminate | vm_compute; reflexivity |].
  split; [exact He|]. split; [exact H1|]. split; [exact Hf|]. rewrite Ho. reflexivity.
Defined.


Lemma main_no_progress_witness :
  fst (q_main (mkArgs "photos" MODEL CLIP_MODEL None 5 true false false None "float")
              (Dir [("a.png", File)]) Sample.empty_world)
  = Raise (NameError "progress_bar").
Proof.
  rewrite (main_no_progress Q 0%Q 1%Q Qplus Qdiv Qeq_bool Sample.lt Sample.of_nat
             Sample.repr Sample.norm Sample.cache_dir Sample.requests_get
             Sample.torch_load Sample.torch_device false Sample.fspath string
             Sample.open_image Sample.clip_load Sample.encode_image Sample.forward
             1700000000%Z
             (mkArgs "photos" MODEL CLIP_MODEL None 5 true false false None "float")
             (Dir [("a.png", File)]) Sample.empty_world
             (snd (q_load_model MODEL CLIP_MODEL "cpu"
                     (snd (print ("Loading " +:+ MODEL) Sample.empty_world))))
             "cpu"
             (mkPredictor 768 (layers (AestheticPredictor_init 768))
                          (Some Sample.checkpoint) (Some "cpu") false)).
  - reflexivity.
  - reflexivity.
  - vm_compute. reflexivity.
  - reflexivity.
  - reflexivity.
  - discriminate.
  - discriminate.
  - now apply sample_encoder_fits.
  - reflexivity.
  - discriminate.
  - repeat constructor; eexists; reflexivity.
Defined.

(** A file with two tensors, asked about without [--keys]. *)
Lemma read_metadata_lists_keys_witness :
  ReadMetadata.main
    (fun _ => Some (ReadMetadata.mkFile None ["lora.down.weight"; "lora.up.weight"]))
    (fun _ => "null")
    (ReadMetadata.parse_args "model.safetensors" false) Sample.empty_world
  = (Ok tt, mkWorld ∅ ∅ [] ["null"; "lora.down.weight"; "lora.up.weight"]).
Proof.
  apply (read_metadata_lists_keys
           (fun _ => Some (ReadMetadata.mkFile None
                             ["lora.down.weight"; "lora.up.weight"]))
           (fun _ => "null") "model.safetensors" false
           (ReadMetadata.mkFile None ["lora.down.weight"; "lora.up.weight"])
           Sample.empty_world).
  reflexivity.
Defined.

(** A cache with two checkpoints, and a file elsewhere that stays. *)
Lemma clear_cache_removes_witness :
  exists files',
    q_clear_cache
      (mkWorld {[ "/home/user/.cache/ae-score/chadscorer.pth" := "a";
                  default_file := "b";
                  "/home/user/notes.txt" := "c" ]}
               {[ "/home/user/.cache/ae-score" ]} [] [])
    = (Ok tt, mkWorld files' {[ "/home/user/.cache/ae-score" ]} [] [])
    /\ files' !! "/home/user/.cache/ae-score/chadscorer.pth" = None
    /\ files' !! default_file = None
    /\ files' !! "/home/user/notes.txt" = Some "c".
Proof.
  destruct (clear_cache_removes Sample.cache_dir
              (mkWorld {[ "/home/user/.cache/ae-score/chadscorer.pth" := "a";
                          default_file := "b";
                          "/home/user/notes.txt" := "c" ]}
                       {[ "/home/user/.cache/ae-score" ]} [] []))
    as (files' & E & Hlook).
  - discriminate.
  - reflexivity.
  - vm_compute. reflexivity.
  - intros p Hp. cbn [fs_dirs] in Hp. apply elem_of_singleton in Hp. subst p.
    reflexivity.
  - exists files'. split; [exact E|].
    split; [|split]; rewrite Hlook; reflexivity.
Defined.

(** A directory in the cache stops the clean-up. *)
Lemma clear_cache_subdirectory_witness :
  exists q,
    fst (q_clear_cache
           (mkWorld {[ default_file := "b" ]}
                    {[ "/home/user/.cache/ae-score";
                       "/home/user/.cache/ae-score/old" ]} [] []))
    = Raise (OSError q).
Proof.
  destruct (clear_cache_subdirectory Sample.cache_dir
              (mkWorld {[ default_file := "b" ]}
                       {[ "/home/user/.cache/ae-score";
                          "/home/user/.cache/ae-score/old" ]} [] [])
              "/home/user/.cache/ae-score/old" "old")
    as (q & E & _).
  - discriminate.
  - reflexivity.
  - vm_compute. reflexivity.
  - vm_compute. reflexivity.
  - reflexivity.
  - reflexivity.
  - exists q. exact E.
Defined.

Lemma clear_cache_no_directory_witness :
  q_clear_cache Sample.empty_world
  = (Raise (OSError "/home/user/.cache/ae-score"), Sample.empty_world).
Proof.
  apply (clear_cache_no_directory Sample.cache_dir Sample.empty_world).
  apply not_elem_of_empty.
Defined.


(** An empty directory. *)
Lemma main_no_files_witness :
  fst (q_main Sample.args (Dir []) Sample.empty_world) = Ok tt
  /\ last (stdout (snd (q_main Sample.args (Dir []) Sample.empty_world)))
     = Some "no scores. Did you put the correct directory/image in?".
Proof.
  rewrite (main_no_files Q 0%Q 1%Q Qplus Qdiv Qeq_bool Sample.lt Sample.of_nat
             Sample.repr Sample.norm Sample.cache_dir Sample.requests_get
             Sample.torch_load Sample.torch_device false Sample.fspath string
             Sample.open_image Sample.clip_load Sample.encode_image Sample.forward
             1700000000%Z Sample.args (Dir []) Sample.empty_world
             (snd (q_load_model MODEL CLIP_MODEL "cpu"
                     (snd (print ("Loading " +:+ MODEL) Sample.empty_world))))
             "cpu"
             (mkPredictor 768 (layers (AestheticPredictor_init 768))
                          (Some Sample.checkpoint) (Some "cpu") false)).
  - split; reflexivity.
  - reflexivity.
  - vm_compute. reflexivity.
  - reflexivity.
  - reflexivity.
  - reflexivity.
Defined.
